(** * Orphan File Finder: a shallow embedding of [find_orphans.py]

    The script walks a project tree, extracts import strings from every
    indexed source file, resolves them to indexed files, counts inbound
    references and reports the unreferenced files, split into whitelisted
    entry points and orphans.

    Conventions of the embedding:
    - a Python [str] is a [string]; a character is the code point of the same
      number, so the text model covers U+0000 to U+00FF;
    - a [pathlib] path is a record of its parts (POSIX flavour, no symbolic
      links in the tree, so [resolve] is the lexical normalisation);
    - an uncaught exception is the [Raise] branch of [result];
    - a Python [set] is a duplicate-free list.  The order in which a process
      iterates over the set [EXTENSIONS] is not fixed by the source: it is
      the parameter [order] of [resolve_import_in], and [resolve_import] is
      the resolution at the order of the source text.  The imports of a file
      are kept in the order of first insertion. *)

From Stdlib Require Import Ascii String.
From stdpp Require Import gmap strings list fin_maps sorting pretty.

Open Scope string_scope.
Open Scope list_scope.
Open Scope stdpp_scope.

(** ** Exceptions *)

Inductive exn := ValueError.

Global Instance exn_eq_dec : EqDecision exn.
Proof. solve_decision. Defined.

Inductive result (A : Type) :=
| Ok (a : A)
| Raise (e : exn).
Arguments Ok {A} a.
Arguments Raise {A} e.

Global Instance result_eq_dec `{EqDecision A} : EqDecision (result A).
Proof. solve_decision. Defined.

Global Instance result_ret : MRet result := fun A a => Ok a.
Global Instance result_bind : MBind result := fun A B f m =>
  match m with
  | Ok a => f a
  | Raise e => Raise e
  end.

Global Instance result_fmap : FMap result := fun A B f m =>
  match m with
  | Ok a => Ok (f a)
  | Raise e => Raise e
  end.

(** ** Python [str] methods *)

Module PyStr.

Definition LF : ascii := "010"%char.
Definition CR : ascii := "013"%char.
Definition NUL : ascii := "000"%char.

Definition between (lo hi : nat) (c : ascii) : bool :=
  let n := nat_of_ascii c in Nat.leb lo n && Nat.leb n hi.

(** [\s] of [re] on [str] patterns, restricted to code points below 256. *)
Definition isspace (c : ascii) : bool :=
  between 9 13 c || between 28 32 c || between 133 133 c || between 160 160 c.

(** [\w] of [re] on [str] patterns, restricted to code points below 256. *)
Definition isword (c : ascii) : bool :=
  between 48 57 c || between 65 90 c || between 95 95 c || between 97 122 c
  || between 170 170 c || between 178 179 c || between 181 181 c
  || between 185 186 c || between 188 190 c || between 192 214 c
  || between 216 246 c || between 248 255 c.

(** Line boundaries of [str.splitlines]. *)
Definition islinebreak (c : ascii) : bool :=
  between 10 13 c || between 28 30 c || between 133 133 c.

(** [str.lower] on one character below U+0100, where it maps one character
    to one character; this is also how [re.IGNORECASE] compares a character
    of that range with an ASCII letter of a pattern. *)
Definition lower_char (c : ascii) : ascii :=
  if between 65 90 c || between 192 214 c || between 216 222 c
  then ascii_of_nat (nat_of_ascii c + 32) else c.

(** [s.lower()] for a text within U+0000 to U+00FF. *)
Fixpoint lower (s : string) : string :=
  match s with
  | EmptyString => EmptyString
  | String c s' => String (lower_char c) (lower s')
  end.

Definition startswith (s : string) (c : ascii) : bool :=
  match s with
  | String a _ => bool_decide (a = c)
  | EmptyString => false
  end.

Fixpoint replace_char (old new : ascii) (s : string) : string :=
  match s with
  | EmptyString => EmptyString
  | String c s' =>
      String (if bool_decide (c = old) then new else c) (replace_char old new s')
  end.

Fixpoint sdrop (n : nat) (s : string) : string :=
  match n, s with
  | S n', String _ s' => sdrop n' s'
  | _, _ => s
  end.

Fixpoint stake (n : nat) (s : string) : string :=
  match n, s with
  | S n', String c s' => String c (stake n' s')
  | _, _ => EmptyString
  end.

Definition endswith (s suffix : string) : bool :=
  bool_decide (sdrop (String.length s - String.length suffix) s = suffix).

Definition contains (c : ascii) (s : string) : bool :=
  bool_decide (c ∈ list_ascii_of_string s).

(** [s.rfind(c)]: index of the last occurrence. *)
Fixpoint rfind (c : ascii) (s : string) : option nat :=
  match s with
  | EmptyString => None
  | String a s' =>
      match rfind c s' with
      | Some i => Some (S i)
      | None => if bool_decide (a = c) then Some 0 else None
      end
  end.

(** [s.split(sep)] for a one-character separator: never the empty list. *)
Fixpoint split (sep : ascii) (s : string) : list string :=
  match s with
  | EmptyString => [EmptyString]
  | String c s' =>
      if bool_decide (c = sep) then EmptyString :: split sep s'
      else match split sep s' with
           | h :: t => String c h :: t
           | [] => [String c EmptyString]
           end
  end.

Fixpoint join (sep : string) (l : list string) : string :=
  match l with
  | [] => EmptyString
  | [x] => x
  | x :: l' => x +:+ sep +:+ join sep l'
  end.

(** [s.splitlines()]: a CR followed by LF is one boundary, and a trailing
    boundary does not open a last empty line. *)
Fixpoint splitlines_from (after_cr : bool) (s : string) : list string :=
  match s with
  | EmptyString => []
  | String c s' =>
      if after_cr && bool_decide (c = LF) then splitlines_from false s'
      else if islinebreak c then EmptyString :: splitlines_from (bool_decide (c = CR)) s'
      else match splitlines_from false s' with
           | h :: t => String c h :: t
           | [] => [String c EmptyString]
           end
  end.

Definition splitlines (s : string) : list string := splitlines_from false s.

(** Adding to a [set]: an element already present is not added again. *)
Definition set_add (x : string) (l : list string) : list string :=
  if bool_decide (x ∈ l) then l else l ++ [x].

End PyStr.

(** ** The fragment of Python's [re] the script uses

    A backtracking matcher in continuation-passing style: alternatives are
    tried left to right and repetition is greedy, as in [re]. *)

Module Re.

Inductive regex :=
| Eps
| Bol                          (* ^ without MULTILINE *)
| Eol                          (* $ without MULTILINE *)
| Chr (c : ascii)              (* a literal character *)
| Cls (p : ascii -> bool)      (* a character class *)
| Cat (r1 r2 : regex)
| Alt (r1 r2 : regex)
| Star (r : regex)
| Group (n : nat) (r : regex).

Definition Plus (r : regex) : regex := Cat r (Star r).
Definition Opt (r : regex) : regex := Alt r Eps.

Fixpoint Lit (s : string) : regex :=
  match s with
  | EmptyString => Eps
  | String c s' => Cat (Chr c) (Lit s')
  end.

Fixpoint Alts (rs : list regex) : regex :=
  match rs with
  | [] => Eps
  | [r] => r
  | r :: rs' => Alt r (Alts rs')
  end.

(** A position in the subject: whether it is position 0, what is left of the
    subject, and the groups captured so far (most recent first). *)
Record mstate := MState {
  at_start : bool;
  rest : string;
  groups : list (nat * string)
}.

(** A literal character of a pattern against a character of the subject,
    both below U+0100. *)
Definition chr_eq (ignorecase : bool) (pat c : ascii) : bool :=
  if ignorecase then bool_decide (PyStr.lower_char c = PyStr.lower_char pat)
  else bool_decide (c = pat).

Definition step (ok : ascii -> bool) (st : mstate)
    (k : mstate -> option mstate) : option mstate :=
  match rest st with
  | String c s' => if ok c then k (MState false s' (groups st)) else None
  | EmptyString => None
  end.

Definition consumed (before after : mstate) : string :=
  PyStr.stake (String.length (rest before) - String.length (rest after)) (rest before).

Fixpoint run (ignorecase : bool) (r : regex) (st : mstate)
    (k : mstate -> option mstate) {struct r} : option mstate :=
  match r with
  | Eps => k st
  | Bol => if at_start st then k st else None
  | Eol =>
      if bool_decide (rest st = EmptyString)
         || bool_decide (rest st = String PyStr.LF EmptyString)
      then k st else None
  | Chr c => step (chr_eq ignorecase c) st k
  | Cls p => step p st k
  | Cat r1 r2 => run ignorecase r1 st (fun st' => run ignorecase r2 st' k)
  | Alt r1 r2 =>
      match run ignorecase r1 st k with
      | Some m => Some m
      | None => run ignorecase r2 st k
      end
  | Star r' =>
      (fix loop (fuel : nat) (st : mstate) {struct fuel} : option mstate :=
         match fuel with
         | O => k st
         | S fuel' =>
             match run ignorecase r' st (fun st' =>
                     if Nat.ltb (String.length (rest st')) (String.length (rest st))
                     then loop fuel' st' else None) with
             | Some m => Some m
             | None => k st
             end
         end) (S (String.length (rest st))) st
  | Group n r' =>
      run ignorecase r' st (fun st' =>
        k (MState (at_start st') (rest st') ((n, consumed st st') :: groups st')))
  end.

(** [m.group(n)]: [None] when the group took no part in the match. *)
Fixpoint group (n : nat) (gs : list (nat * string)) : option string :=
  match gs with
  | [] => None
  | (i, s) :: gs' => if Nat.eqb i n then Some s else group n gs'
  end.

(** [pattern.match(s)]: a match anchored at position 0. *)
Definition match_ (ignorecase : bool) (r : regex) (s : string) : option mstate :=
  run ignorecase r (MState true s []) Some.

(** [re.search(pattern, s)]: the first position with a match. *)
Fixpoint search_from (ignorecase : bool) (r : regex) (start : bool) (s : string)
    : option mstate :=
  match run ignorecase r (MState start s []) Some with
  | Some m => Some m
  | None =>
      match s with
      | EmptyString => None
      | String _ s' => search_from ignorecase r false s'
      end
  end.

Definition search (ignorecase : bool) (r : regex) (s : string) : option mstate :=
  search_from ignorecase r true s.

(** [pattern.finditer(s)]: the matches from left to right, without overlap.
    [skip] counts the characters of the last match still to be passed. *)
Fixpoint finditer_from (r : regex) (start : bool) (skip : nat) (s : string)
    : list (list (nat * string)) :=
  match skip with
  | S skip' =>
      match s with
      | EmptyString => []
      | String _ s' => finditer_from r false skip' s'
      end
  | O =>
      match run false r (MState start s []) Some with
      | Some m =>
          groups m ::
          match s with
          | EmptyString => []
          | String _ s' =>
              finditer_from r false (String.length s - String.length (rest m) - 1) s'
          end
      | None =>
          match s with
          | EmptyString => []
          | String _ s' => finditer_from r false 0 s'
          end
      end
  end.

Definition finditer (r : regex) (s : string) : list (list (nat * string)) :=
  finditer_from r true 0 s.

End Re.

(** ** The fragment of [pathlib] the script uses (POSIX flavour) *)

Module PurePath.

Record t := Path_ {
  is_abs : bool;
  parts : list string
}.

Global Instance t_eq_dec : EqDecision t.
Proof. solve_decision. Defined.

(** A path string splits at [/]; empty components and [.] are dropped. *)
Definition keep_part (s : string) : bool :=
  negb (bool_decide (s = EmptyString)) && negb (bool_decide (s = ".")).

Definition parse_parts (s : string) : list string :=
  filter (fun x => Is_true (keep_part x)) (PyStr.split "/" s).

(** What a part of a parsed path is: kept by the parser and without [/]. *)
Definition is_part (s : string) : bool :=
  keep_part s && negb (PyStr.contains "/" s).

Definition well_formed (p : t) : Prop :=
  is_abs p = true /\ Forall (fun x => Is_true (is_part x)) (parts p).

(** [Path(s)] *)
Definition Path (s : string) : t :=
  Path_ (PyStr.startswith s "/") (parse_parts s).

(** [str(p)] *)
Definition str (p : t) : string :=
  if is_abs p then "/" +:+ PyStr.join "/" (parts p)
  else match parts p with
       | [] => "."
       | _ => PyStr.join "/" (parts p)
       end.

(** [p.name]: the last part, empty for the root. *)
Definition name (p : t) : string := List.last (parts p) EmptyString.

(** The index at which the suffix of a name starts: the last dot, unless it
    is the first or the last character of the name. *)
Definition suffix_index (nm : string) : option nat :=
  match PyStr.rfind "." nm with
  | Some i =>
      if Nat.ltb 0 i && Nat.ltb i (String.length nm - 1) then Some i else None
  | None => None
  end.

Definition name_suffix (nm : string) : string :=
  match suffix_index nm with
  | Some i => PyStr.sdrop i nm
  | None => EmptyString
  end.

Definition name_stem (nm : string) : string :=
  match suffix_index nm with
  | Some i => PyStr.stake i nm
  | None => nm
  end.

(** [p.suffix] and [p.stem] *)
Definition suffix (p : t) : string := name_suffix (name p).
Definition stem (p : t) : string := name_stem (name p).

(** [p.parent]: the root is its own parent. *)
Definition parent (p : t) : t := Path_ (is_abs p) (removelast (parts p)).

(** [p / s]: an absolute right operand replaces the left one. *)
Definition joinpath (p : t) (s : string) : t :=
  if PyStr.startswith s "/" then Path s
  else Path_ (is_abs p) (parts p ++ parse_parts s).

(** [p.with_suffix(ext)] raises [ValueError] on a path with an empty name;
    otherwise the suffix of the name is replaced, or [ext] is appended when
    the name has none. *)
Definition with_suffix (p : t) (ext : string) : result t :=
  if bool_decide (name p = EmptyString) then Raise ValueError
  else Ok (Path_ (is_abs p) (removelast (parts p) ++ [name_stem (name p) +:+ ext])).

(** Lexical normalisation: [..] removes the part before it, and stays at the
    root when there is none. *)
Fixpoint normalize (stack : list string) (ps : list string) : list string :=
  match ps with
  | [] => stack
  | p :: ps' =>
      if bool_decide (p = "..") then normalize (removelast stack) ps'
      else normalize (stack ++ [p]) ps'
  end.

(** [p.resolve()] in a tree without symbolic links, from the working
    directory [cwd]; a NUL character in the path raises [ValueError]. *)
Definition resolve (cwd : t) (p : t) : result t :=
  let ps := if is_abs p then parts p else parts cwd ++ parts p in
  if bool_decide (Exists (fun x => Is_true (PyStr.contains PyStr.NUL x)) ps)
  then Raise ValueError
  else Ok (Path_ true (normalize [] ps)).

Fixpoint strip_prefix (pre l : list string) : option (list string) :=
  match pre, l with
  | [], _ => Some l
  | x :: pre', y :: l' => if bool_decide (x = y) then strip_prefix pre' l' else None
  | _ :: _, [] => None
  end.

(** [p.relative_to(other)] raises [ValueError] unless [other] is a prefix. *)
Definition relative_to (p other : t) : result t :=
  if bool_decide (is_abs p = is_abs other) then
    match strip_prefix (parts other) (parts p) with
    | Some l => Ok (Path_ false l)
    | None => Raise ValueError
    end
  else Raise ValueError.

Section Match.

(** [fnmatch.fnmatchcase(name, pattern)] of the standard library. *)
Variable fnmatchcase : string -> string -> bool.

(** [p.match(pattern)]: the pattern is matched from the right, part by part;
    an empty pattern raises [ValueError]. *)
Definition match_ (p : t) (pattern : string) : result bool :=
  let pat := Path pattern in
  if negb (is_abs pat) && bool_decide (parts pat = []) then Raise ValueError
  else if is_abs pat && negb (is_abs p) then Ok false
  else if is_abs pat then
    Ok (bool_decide (length (parts pat) = length (parts p))
        && forallb (fun '(x, y) => fnmatchcase x y)
             (zip (reverse (parts p)) (reverse (parts pat))))
  else if Nat.ltb (length (parts p)) (length (parts pat)) then Ok false
  else Ok (forallb (fun '(x, y) => fnmatchcase x y)
             (zip (reverse (parts p)) (reverse (parts pat)))).

End Match.

End PurePath.

(** ** The project tree and [os.walk] *)

Module Fs.

(** A file holds the text [f.read()] returns ([None] when opening or reading
    it fails); a directory lists its entries in the order [os.scandir] yields
    them.  A directory that cannot be listed, or a link to a directory, walks
    as an empty directory. *)
#[local] Unset Elimination Schemes.
Inductive node :=
| File (content : option string)
| Dir (entries : list (string * node)).
#[local] Set Elimination Schemes.

Fixpoint lookup (n : node) (ps : list string) {struct ps} : option node :=
  match ps with
  | [] => Some n
  | p :: ps' =>
      match n with
      | File _ => None
      | Dir es =>
          (fix find (es : list (string * node)) : option node :=
             match es with
             | [] => None
             | (nm, c) :: es' =>
                 if bool_decide (nm = p) then lookup c ps' else find es'
             end) es
      end
  end.

(** [open(path).read()] *)
Definition read (fs : node) (p : PurePath.t) : option string :=
  match lookup fs (PurePath.parts p) with
  | Some (File (Some content)) => Some content
  | _ => None
  end.

Definition filenames (es : list (string * node)) : list string :=
  omap (fun '(nm, c) => match c with File _ => Some nm | Dir _ => None end) es.

(** [os.walk(top)], top-down, where the caller prunes the directory names
    with [keep] before the walk descends: one pair [(dirpath, filenames)] per
    visited directory.  Errors of [scandir] are ignored, so walking a file
    yields nothing. *)
Fixpoint walk (keep : string -> bool) (top : PurePath.t) (n : node)
    : list (PurePath.t * list string) :=
  match n with
  | File _ => []
  | Dir es =>
      (top, filenames es) ::
      (fix sub (es : list (string * node)) : list (PurePath.t * list string) :=
         match es with
         | [] => []
         | (d, c) :: es' =>
             match c with
             | Dir _ =>
                 if keep d then walk keep (PurePath.joinpath top d) c ++ sub es'
                 else sub es'
             | File _ => sub es'
             end
         end) es
  end.

(** [os.walk] of a path of the tree: a missing top yields nothing. *)
Definition walk_path (keep : string -> bool) (fs : node) (top : PurePath.t)
    : list (PurePath.t * list string) :=
  match lookup fs (PurePath.parts top) with
  | Some n => walk keep top n
  | None => []
  end.

(** The names [os.scandir] can yield: not empty, not [.], without [/]. *)
Fixpoint well_named (n : node) : bool :=
  match n with
  | File _ => true
  | Dir es =>
      (fix all (es : list (string * node)) : bool :=
         match es with
         | [] => true
         | (nm, c) :: es' => PurePath.is_part nm && well_named c && all es'
         end) es
  end.

End Fs.

(** ** A [dict] with insertion order *)

Module PyDict.

Definition t := list (string * nat).

Fixpoint get (k : string) (d : t) : option nat :=
  match d with
  | [] => None
  | (k', v) :: d' => if bool_decide (k' = k) then Some v else get k d'
  end.

Definition contains (k : string) (d : t) : bool := bool_decide (is_Some (get k d)).

(** [d[k] = v]: a present key keeps its position. *)
Fixpoint set (k : string) (v : nat) (d : t) : t :=
  match d with
  | [] => [(k, v)]
  | (k', v') :: d' =>
      if bool_decide (k' = k) then (k, v) :: d' else (k', v') :: set k v d'
  end.

Definition keys (d : t) : list string := d.*1.

(** [{f: 0 for f in files}] *)
Definition zeros (files : list string) : t :=
  fold_left (fun d f => set f 0 d) files [].

(** [d[k] += 1] for a key of [d]. *)
Definition incr (k : string) (d : t) : t :=
  match get k d with
  | Some v => set k (S v) d
  | None => d
  end.

End PyDict.

(** ** [find_orphans.py] *)

Import PyStr.

(** *** Configuration *)

(** The set [EXTENSIONS], listed in the order of the source text.  Membership
    is what the indexer uses; the order counts only where the set is iterated,
    in [resolve_import_in]. *)
Definition EXTENSIONS : list string :=
  [".js"; ".jsx"; ".ts"; ".tsx"; ".mjs"; ".cjs"; ".py"; ".go"].

Definition SKIP_DIRS : list string :=
  ["node_modules"; "vendor"; "venv"; ".venv"; "__pycache__"; ".git";
   "dist"; "build"; ".next"; "target"; "bin"; "obj"; ".idea"; ".vscode";
   "coverage"; "test"; "tests"].

Definition Seq (rs : list Re.regex) : Re.regex :=
  foldr Re.Cat Re.Eps rs.

Definition whole (nm : string) (exts : list string) : Re.regex :=
  Seq [Re.Bol; Re.Lit nm; Re.Chr "."; Re.Group 1 (Re.Alts (Re.Lit <$> exts)); Re.Eol].

Definition exact (nm : string) : Re.regex := Seq [Re.Bol; Re.Lit nm; Re.Eol].

Definition starting (nm : string) : Re.regex := Seq [Re.Bol; Re.Lit nm].

Definition ENTRY_POINT_PATTERNS : list Re.regex :=
  [ whole "index" ["js"; "ts"; "jsx"; "tsx"];
    whole "main" ["js"; "ts"; "py"; "go"];
    whole "server" ["js"; "ts"];
    whole "app" ["js"; "ts"];
    whole "cli" ["js"; "ts"; "py"];
    exact "setup.py";
    exact "manage.py";
    starting "vite.config.";
    starting "webpack.config.";
    starting "jest.config.";
    exact "tsconfig.json";
    exact "package.json";
    exact "go.mod";
    exact "requirements.txt" ].

(** The patterns of the whitelist that name files without a source suffix. *)
Definition MANIFEST_NAMES : list string :=
  ["tsconfig.json"; "package.json"; "go.mod"; "requirements.txt"].

Definition ws : Re.regex := Re.Cls isspace.

Definition quote (c : ascii) : bool :=
  bool_decide (c = "034"%char) || bool_decide (c = "039"%char).

Definition not_quote (c : ascii) : bool := negb (quote c).

Definition word_or_dot (c : ascii) : bool := isword c || bool_decide (c = "."%char).

(** The optional clause before the quoted string: characters other than
    quotes, blanks, the word from, blanks. *)
Definition from_clause : Re.regex :=
  Re.Opt (Seq [Re.Star (Re.Cls not_quote); Re.Plus ws; Re.Lit "from"; Re.Plus ws]).

Definition REGEX_JS_IMPORT : Re.regex :=
  Seq [ Re.Alts [Re.Bol; Re.Chr ";"; Re.Chr "}"];
        Re.Star ws;
        Re.Alts [ Seq [Re.Lit "import"; Re.Plus ws; from_clause];
                  Seq [Re.Lit "export"; Re.Plus ws; from_clause];
                  Seq [Re.Lit "require"; Re.Star ws; Re.Chr "("; Re.Star ws] ];
        Re.Cls quote;
        Re.Group 1 (Re.Plus (Re.Cls not_quote));
        Re.Cls quote ].

Definition REGEX_PY_IMPORT : Re.regex :=
  Seq [ Re.Bol;
        Re.Star ws;
        Re.Alts [ Seq [Re.Lit "import"; Re.Plus ws; Re.Group 1 (Re.Plus (Re.Cls word_or_dot))];
                  Seq [Re.Lit "from"; Re.Plus ws; Re.Group 2 (Re.Plus (Re.Cls word_or_dot));
                       Re.Plus ws; Re.Lit "import"] ] ].

(** *** Command line *)

Inductive format := json | text.

Record args := Args {
  directory : string;
  format_ : format;
  ignore : string
}.

Definition FULL_PATHS : string := "__FULL_PATHS__".

(** [m.get(k, [])] *)
Definition map_get (m : gmap string (list string)) (k : string) : list string :=
  default [] (m !! k).

(** [m[k].append(v)] on a [defaultdict(list)] *)
Definition map_append (k v : string) (m : gmap string (list string))
    : gmap string (list string) :=
  <[k := map_get m k ++ [v]]> m.

Definition str_in (x : string) (l : list string) : bool := bool_decide (x ∈ l).

(** *** Entry points *)

Definition matches_entry_pattern (nm : string) : bool :=
  existsb (fun pat => bool_decide (is_Some (Re.search true pat nm))) ENTRY_POINT_PATTERNS.

Definition get_entry_points (files : list string) : list string :=
  fold_left
    (fun entry_points f =>
       if matches_entry_pattern (PurePath.name (PurePath.Path f))
       then set_add f entry_points else entry_points)
    files [].

(** *** Reference extraction *)

Definition JS_SUFFIXES : list string := [".js"; ".jsx"; ".ts"; ".tsx"; ".mjs"; ".cjs"].

(** [match.group(1) or match.group(2)] *)
Definition group_1_or_2 (gs : list (nat * string)) : string :=
  match Re.group 1 gs with
  | Some (String c g) => String c g
  | _ => default EmptyString (Re.group 2 gs)
  end.

Definition scan_js (content : string) : list string :=
  fold_left
    (fun imports gs => set_add (default EmptyString (Re.group 1 gs)) imports)
    (Re.finditer REGEX_JS_IMPORT content) [].

Definition scan_py (content : string) : list string :=
  fold_left
    (fun imports line =>
       match Re.match_ false REGEX_PY_IMPORT line with
       | Some m => set_add (group_1_or_2 (Re.groups m)) imports
       | None => imports
       end)
    (splitlines content) [].

Definition scan_imports (fs : Fs.node) (file_path : PurePath.t) : list string :=
  let ext := lower (PurePath.suffix file_path) in
  match Fs.read fs file_path with
  | None => []
  | Some content =>
      if str_in ext JS_SUFFIXES then scan_js content
      else if bool_decide (ext = ".py") then scan_py content
      else []
  end.

(** *** The data of a run *)

Record file_index := FileIndex {
  all_files : list string;
  file_map : gmap string (list string);
  full_path_set : list string
}.

Definition empty_index : file_index := FileIndex [] ∅ [].

Record analysis := Analysis {
  a_root : PurePath.t;
  a_files : list string;
  a_file_map : gmap string (list string);
  in_degree : PyDict.t;
  true_orphans : list string;
  likely_entry_points : list string;
  processed_orphans : list string;
  processed_entry : list string
}.

(** What the process writes to its standard output: the object given to
    [json.dumps], or the arguments of the successive [print] calls. *)
Inductive stdout :=
| JsonDoc (orphans entry_points : list string) (count : nat)
| Printed (lines : list string).

Fixpoint foldM {A B : Type} (f : B -> A -> result B) (l : list A) (b : B) : result B :=
  match l with
  | [] => Ok b
  | x :: l' => b' ← f b x; foldM f l' b'
  end.

Fixpoint mapM {A B : Type} (f : A -> result B) (l : list A) : result (list B) :=
  match l with
  | [] => Ok []
  | x :: l' => y ← f x; ys ← mapM f l'; Ok (y :: ys)
  end.

(** [sorted(l)] on strings *)
Definition sorted (l : list string) : list string := merge_sort String.le l.

(** [args.ignore.split(',') if args.ignore else []] *)
Definition ignore_patterns (a : args) : list string :=
  if bool_decide (ignore a = EmptyString) then [] else split "," (ignore a).

Definition keep_dir (d : string) : bool :=
  negb (str_in d SKIP_DIRS) && negb (startswith d ".").

Definition dashes : string := String.concat "" (replicate 60 "-").

Definition render_text (processed_orphans processed_entry : list string) : list string :=
  ["Found " +:+ pretty (length processed_orphans) +:+ " potential orphan files."; dashes]
  ++ match processed_entry with
     | [] => []
     | _ => String LF "Likely Entry Points (Whitelisted):"
            :: ((fun f => "  [OK] " +:+ f) <$> sorted processed_entry)
     end
  ++ [String LF "Potential Orphans (No Inbound References):"]
  ++ match processed_orphans with
     | [] => ["  (None found)"]
     | _ => (fun f => "  [?] " +:+ f) <$> sorted processed_orphans
     end
  ++ [String LF dashes; "Tip: Verify these files are truly unused before deleting."].

Definition render (fmt : format) (r : analysis) : stdout :=
  match fmt with
  | json => JsonDoc (processed_orphans r) (processed_entry r) (length (processed_orphans r))
  | text => Printed (render_text (processed_orphans r) (processed_entry r))
  end.

(** What the indexer admits: the string of an absolute path whose suffix, in
    lower case, is a recognized extension. *)
Definition indexed_path (f : string) : Prop :=
  exists p, f = PurePath.str p /\ PurePath.well_formed p
            /\ lower (PurePath.suffix p) ∈ EXTENSIONS.

(** The files of the table with count zero, in the order of the table. *)
Definition zero_degree (d : PyDict.t) : list string :=
  omap (fun '(f, degree) => if Nat.eqb degree 0 then Some f else None) d.

Section Script.

(** The working directory of the process, as [os.getcwd()] returns it, and
    the standard library's [fnmatch.fnmatchcase]. *)
Variable cwd : string.
Variable fnmatchcase : string -> string -> bool.

Fixpoint is_ignored (path : PurePath.t) (ignore_patterns : list string) : result bool :=
  match ignore_patterns with
  | [] => Ok false
  | pattern :: rest =>
      if bool_decide (pattern = EmptyString) then is_ignored path rest
      else
        m ← PurePath.match_ fnmatchcase path pattern;
        if (m : bool) then Ok true else is_ignored path rest
  end.

(** *** Path resolution *)

(** The loop over the candidates of a module path. *)
Fixpoint first_module_match (py_path : string) (candidates : list string) : option string :=
  match candidates with
  | [] => None
  | c :: rest =>
      if endswith c (py_path +:+ ".py") then Some c
      else first_module_match py_path rest
  end.

(** The loop [for ext in EXTENSIONS: target.with_suffix(ext)]. *)
Fixpoint try_suffixes (target : PurePath.t) (full_paths : list string)
    (exts : list string) : result (option string) :=
  match exts with
  | [] => Ok None
  | ext :: rest =>
      candidate ← PurePath.with_suffix target ext;
      if str_in (PurePath.str candidate) full_paths
      then Ok (Some (PurePath.str candidate))
      else try_suffixes target full_paths rest
  end.

(** The loop [for ext in EXTENSIONS: target / f"index{ext}"]. *)
Fixpoint try_index_files (target : PurePath.t) (full_paths : list string)
    (exts : list string) : option string :=
  match exts with
  | [] => None
  | ext :: rest =>
      let candidate := PurePath.joinpath target ("index" +:+ ext) in
      if str_in (PurePath.str candidate) full_paths
      then Some (PurePath.str candidate)
      else try_index_files target full_paths rest
  end.

(** [resolve_import] in a process that iterates over the set [EXTENSIONS]
    in the order [order], the same in both loops of a call. *)
Definition resolve_import_in (order : list string) (base_file : PurePath.t)
    (import_path : string) (all_files_map : gmap string (list string))
    : result (option string) :=
  if negb (startswith import_path ".") then
    let py_path := replace_char "." "/" import_path in
    let candidates := map_get all_files_map (PurePath.name (PurePath.Path py_path)) in
    Ok (first_module_match py_path candidates)
  else
    match PurePath.resolve (PurePath.Path cwd)
            (PurePath.joinpath (PurePath.parent base_file) import_path) with
    | Raise ValueError => Ok None
    | Ok target =>
        let full_paths := map_get all_files_map FULL_PATHS in
        if str_in (PurePath.str target) full_paths then Ok (Some (PurePath.str target))
        else
          r ← try_suffixes target full_paths order;
          match r with
          | Some c => Ok (Some c)
          | None => Ok (try_index_files target full_paths order)
          end
    end.

(** The resolution at the order of the source text, which the runs below
    use. *)
Definition resolve_import : PurePath.t -> string -> gmap string (list string)
    -> result (option string) :=
  resolve_import_in EXTENSIONS.

(** The candidates of a relative reference in the order they are tried
    when the extensions are taken in the order [order]: the target itself,
    the target with its suffix replaced by each extension (appended when
    the target has no suffix), the index file of each extension under the
    target. *)
Definition replace_suffix (target : PurePath.t) (ext : string) : PurePath.t :=
  PurePath.Path_ (PurePath.is_abs target)
    (removelast (PurePath.parts target)
     ++ [PurePath.name_stem (PurePath.name target) +:+ ext]).

Definition relative_candidates_in (order : list string) (target : PurePath.t)
    : list string :=
  PurePath.str target
  :: ((fun ext => PurePath.str (replace_suffix target ext)) <$> order)
  ++ ((fun ext => PurePath.str (PurePath.joinpath target ("index" +:+ ext))) <$> order).

Definition relative_candidates : PurePath.t -> list string :=
  relative_candidates_in EXTENSIONS.

(** *** Indexing *)

Definition index_file (root : PurePath.t) (ignore_patterns : list string)
    (dirpath : PurePath.t) (idx : file_index) (f : string) : result file_index :=
  let path := PurePath.joinpath dirpath f in
  if str_in (lower (PurePath.suffix path)) EXTENSIONS then
    rel_path ← PurePath.relative_to path root;
    ignored ← is_ignored rel_path ignore_patterns;
    if (ignored : bool) then Ok idx
    else
      let full_str := PurePath.str path in
      Ok (FileIndex (all_files idx ++ [full_str])
            (map_append (PurePath.stem path) full_str
               (map_append (PurePath.name path) full_str (file_map idx)))
            (set_add full_str (full_path_set idx)))
  else Ok idx.

Definition index_dir (root : PurePath.t) (ignore_patterns : list string)
    (idx : file_index) (entry : PurePath.t * list string) : result file_index :=
  foldM (index_file root ignore_patterns entry.1) entry.2 idx.

Definition index_files (fs : Fs.node) (root : PurePath.t) (ignore_patterns : list string)
    : result file_index :=
  foldM (index_dir root ignore_patterns) (Fs.walk_path keep_dir fs root) empty_index.

(** *** The graph of the first pass, which the script builds and drops *)

Definition graph_import (all_files_map : gmap string (list string))
    (table : PyDict.t) (f : string) (graph : gmap string (list string)) (imp : string)
    : result (gmap string (list string)) :=
  resolved ← resolve_import (PurePath.Path f) imp all_files_map;
  match resolved with
  | Some r =>
      if negb (bool_decide (r = EmptyString)) && PyDict.contains r table then
        if negb (bool_decide (r = f)) then Ok (<[f := set_add r (map_get graph f)]> graph)
        else Ok graph
      else Ok graph
  | None => Ok graph
  end.

Definition build_graph (fs : Fs.node) (all_files_map : gmap string (list string))
    (files : list string) : result (gmap string (list string)) :=
  foldM (fun graph f =>
           foldM (graph_import all_files_map (PyDict.zeros files) f)
             (scan_imports fs (PurePath.Path f)) graph)
    files ∅.

(** *** In-degree *)

Definition count_import (all_files_map : gmap string (list string))
    (consumer : string) (table : PyDict.t) (imp : string) : result PyDict.t :=
  resolved ← resolve_import (PurePath.Path consumer) imp all_files_map;
  match resolved with
  | Some r =>
      if negb (bool_decide (r = EmptyString)) && PyDict.contains r table then
        if negb (bool_decide (r = consumer)) then Ok (PyDict.incr r table)
        else Ok table
      else Ok table
  | None => Ok table
  end.

Definition count_file (fs : Fs.node) (all_files_map : gmap string (list string))
    (table : PyDict.t) (consumer : string) : result PyDict.t :=
  foldM (count_import all_files_map consumer)
    (scan_imports fs (PurePath.Path consumer)) table.

Definition count_in_degree (fs : Fs.node) (all_files_map : gmap string (list string))
    (files : list string) : result PyDict.t :=
  foldM (count_file fs all_files_map) files (PyDict.zeros files).

(** *** Reference counts, for stating what the in-degree table holds *)

(** The distinct reference strings of [consumer] that resolve to [d]. *)
Definition references (fs : Fs.node) (m : gmap string (list string))
    (consumer d : string) : nat :=
  length (filter (fun imp => resolve_import (PurePath.Path consumer) imp m = Ok (Some d))
            (scan_imports fs (PurePath.Path consumer))).

(** The references to [d] from the consumers other than [d] itself. *)
Definition inbound (fs : Fs.node) (m : gmap string (list string))
    (files : list string) (d : string) : nat :=
  sum_list ((fun c => if bool_decide (c = d) then 0 else references fs m c d) <$> files).

(** *** The run *)

Definition relative_str (root : PurePath.t) (f : string) : result string :=
  PurePath.str <$> PurePath.relative_to (PurePath.Path f) root.

Definition analyze (fs : Fs.node) (a : args) : result analysis :=
  root ← PurePath.resolve (PurePath.Path cwd) (PurePath.Path (directory a));
  idx ← index_files fs root (ignore_patterns a);
  let files := all_files idx in
  let all_files_map := <[FULL_PATHS := full_path_set idx]> (file_map idx) in
  _ ← build_graph fs all_files_map files;
  table ← count_in_degree fs all_files_map files;
  let orphans := zero_degree table in
  let entry_points := get_entry_points files in
  let true_orphans := filter (fun f => f ∉ entry_points) orphans in
  let likely_entry_points := filter (fun f => f ∈ entry_points) orphans in
  processed_orphans ← mapM (relative_str root) true_orphans;
  processed_entry ← mapM (relative_str root) likely_entry_points;
  Ok (Analysis root files all_files_map table true_orphans likely_entry_points
        processed_orphans processed_entry).

(** [main]: [Ok] is the standard output of a run that ends with status 0;
    [Raise] is an uncaught exception, which ends the process with status 1
    before anything is written to the standard output. *)
Definition main (fs : Fs.node) (a : args) : result stdout :=
  r ← analyze fs a;
  Ok (render (format_ a) r).

Definition exit_status (r : result stdout) : nat :=
  match r with
  | Ok _ => 0
  | Raise _ => 1
  end.

End Script.

(** *** Conditions used to state when a run completes *)

(** A pattern [PurePath.match] accepts: it has a part or it is absolute.
    The empty entries of the ignore list are never passed to it. *)
Definition acceptable_pattern (pattern : string) : bool :=
  bool_decide (pattern = EmptyString)
  || negb (bool_decide (PurePath.parse_parts pattern = []))
  || startswith pattern "/".

(** [Path('/')] *)
Definition file_system_root : PurePath.t := PurePath.Path_ true [].

(** The reference [imp] held by the file [f] is relative and its target is
    the root of the file system. *)
Definition targets_file_system_root (cwd f imp : string) : Prop :=
  startswith imp "." = true
  /\ PurePath.resolve (PurePath.Path cwd)
       (PurePath.joinpath (PurePath.parent (PurePath.Path f)) imp)
     = Ok file_system_root.

(** What the indexing loop keeps true of the three structures it fills. *)
Definition index_inv (idx : file_index) : Prop :=
  (forall k c, c ∈ map_get (file_map idx) k ->
     c ∈ all_files idx
     /\ (k = PurePath.name (PurePath.Path c) \/ k = PurePath.stem (PurePath.Path c)))
  /\ (forall f, f ∈ all_files idx ->
        f ∈ map_get (file_map idx) (PurePath.name (PurePath.Path f))
        /\ f ∈ map_get (file_map idx) (PurePath.stem (PurePath.Path f)))
  /\ (forall f, f ∈ full_path_set idx <-> f ∈ all_files idx)
  /\ NoDup (full_path_set idx).

(** The patterns built from literal characters, anchors, groups, sequences
    and alternatives only, as the patterns of the whitelist are. *)
Fixpoint literal_pattern (r : Re.regex) : bool :=
  match r with
  | Re.Eps | Re.Bol | Re.Eol | Re.Chr _ => true
  | Re.Cls _ | Re.Star _ => false
  | Re.Cat r1 r2 | Re.Alt r1 r2 => literal_pattern r1 && literal_pattern r2
  | Re.Group _ r' => literal_pattern r'
  end.

(** A text with its letters [A] to [Z] replaced by [a] to [z]. *)
Definition ascii_lower_char (c : ascii) : ascii :=
  if between 65 90 c then ascii_of_nat (nat_of_ascii c + 32) else c.

Fixpoint ascii_lower (s : string) : string :=
  match s with
  | EmptyString => EmptyString
  | String c s' => String (ascii_lower_char c) (ascii_lower s')
  end.

(** ** Example trees *)

(** A function that stands for [fnmatch.fnmatchcase] in the concrete runs:
    it matches nothing.  A run without ignore patterns never consults it, and
    the theorems about patterns hold for every such function. *)
Definition no_fnmatch (name pattern : string) : bool := false.

Definition line_break : string := String LF EmptyString.

Definition source (text : string) : Fs.node := Fs.File (Some text).

(** Scenario A: [src/index.js] imports [./lib/a.js]; [src/lib/b.js] is not
    referenced. *)
Definition scenario_A : Fs.node :=
  Fs.Dir [("p", Fs.Dir [("src", Fs.Dir
    [("index.js", source "import a from './lib/a.js';");
     ("lib", Fs.Dir [("a.js", source ""); ("b.js", source "")])])])].

(** Scenario B: [main.py] holds the line [from utils import helper]. *)
Definition scenario_B : Fs.node :=
  Fs.Dir [("proj", Fs.Dir
    [("main.py", source "from utils import helper");
     ("utils", Fs.Dir [("helper.py", source ""); ("unused.py", source "")])])].

(** [main.py] imports [helper] on two lines. *)
Definition repeated_text : string := "import helper" +:+ line_break +:+ "import helper".

Definition repeated_import : Fs.node :=
  Fs.Dir [("p", Fs.Dir [("main.py", source repeated_text); ("helper.py", source "")])].

(** [main.js] imports the module [utils], and [utils.js] is beside it. *)
Definition module_js : Fs.node :=
  Fs.Dir [("r", Fs.Dir [("main.js", source "import u from 'utils';");
                        ("utils.js", source "")])].

(** [main.ts] imports [./a.service], and [a.service.ts] is beside it. *)
Definition dotted_name : Fs.node :=
  Fs.Dir [("r", Fs.Dir [("main.ts", source "import { S } from './a.service';");
                        ("a.service.ts", source "")])].

(** Two files that [os.scandir] yields in the order [b.py], [a.py]. *)
Definition unsorted_listing : Fs.node :=
  Fs.Dir [("p", Fs.Dir [("b.py", source ""); ("a.py", source "")])].

(** A file whose suffix is in upper case. *)
Definition upper_case_name : Fs.node :=
  Fs.Dir [("p", Fs.Dir [("MAIN.PY", source "")])].

(** [a.js] imports itself and [b.js]; in the second tree it imports [b.js]
    only. *)
Definition self_import : Fs.node :=
  Fs.Dir [("p", Fs.Dir [("a.js", source "import './a'; import './b'");
                        ("b.js", source "")])].

Definition no_self_import : Fs.node :=
  Fs.Dir [("p", Fs.Dir [("a.js", source "import './b'"); ("b.js", source "")])].

(** A project directly under the root of the file system whose file
    requires its parent directory. *)
Definition top_level_parent : Fs.node :=
  Fs.Dir [("app", Fs.Dir [("index.js", source "require('..')")])].

(** The lookup structure a run builds for a tree. *)
Definition file_map_of (fs : Fs.node) (dir : string) : gmap string (list string) :=
  match analyze "/" no_fnmatch fs (Args dir json "") with
  | Ok r => a_file_map r
  | Raise _ => ∅
  end.

(** [index.js] imports [./a], and both [a.js] and [a.ts] are beside it. *)
Definition two_suffixes : Fs.node :=
  Fs.Dir [("p", Fs.Dir [("a.js", source ""); ("a.ts", source "");
                        ("index.js", source "import x from './a'")])].

(** Two import statements on two lines, written without semicolons. *)
Definition two_statements : string :=
  "import a from './a'" +:+ line_break +:+ "import b from './b'".

(** A project of Go files. *)
Definition go_project : Fs.node :=
  Fs.Dir [("g", Fs.Dir [("main.go", source "package main");
                        ("util.go", source "package main")])].

(** A Python package whose module [a] imports its sibling [mod] by a
    relative import; a hidden file [.mod.py] lies beside them. *)
Definition python_package : Fs.node :=
  Fs.Dir [("proj", Fs.Dir [("pkg", Fs.Dir
    [("a.py", source "from .mod import x");
     ("mod.py", source "");
     (".mod.py", source "")])])].

(** * Properties *)

(** ** The ordered dictionary *)

Module PyDictFacts.
Import PyDict.

Lemma get_Some_keys k v (d : t) : get k d = Some v -> k ∈ keys d.
Proof.
  induction d as [|[k' v'] d IH]; simpl; [done|].
  case_bool_decide; subst; intros; [left | right; auto].
Qed.

Lemma get_None_keys k (d : t) : get k d = None <-> k ∉ keys d.
Proof.
  induction d as [|[k' v'] d IH]; simpl.
  - split; [intros _; apply not_elem_of_nil | done].
  - case_bool_decide; subst; rewrite not_elem_of_cons.
    + split; [done | intros [? _]; done].
    + rewrite IH. intuition congruence.
Qed.

Lemma contains_keys k (d : t) : contains k d = true <-> k ∈ keys d.
Proof.
  unfold contains. rewrite bool_decide_eq_true. split.
  - intros [v Hv]. eauto using get_Some_keys.
  - intros Hk. destruct (get k d) eqn:E; [eauto|].
    apply get_None_keys in E. done.
Qed.

Lemma keys_set_in k v (d : t) : k ∈ keys d -> keys (set k v d) = keys d.
Proof.
  induction d as [|[k' v'] d IH]; simpl.
  - intros H. by apply elem_of_nil in H.
  - intros H. case_bool_decide; subst; simpl; [done|].
    f_equal. apply IH. apply elem_of_cons in H as [?|?]; [congruence | done].
Qed.

Lemma keys_set_notin k v (d : t) : k ∉ keys d -> keys (set k v d) = keys d ++ [k].
Proof.
  induction d as [|[k' v'] d IH]; simpl; [done|].
  rewrite not_elem_of_cons. intros [Hne Hk].
  case_bool_decide; [congruence|]. simpl. f_equal. auto.
Qed.

Lemma get_set_eq k v (d : t) : get k (set k v d) = Some v.
Proof.
  induction d as [|[k' v'] d IH]; simpl.
  - by rewrite bool_decide_eq_true_2.
  - case_bool_decide; subst; simpl.
    + by rewrite bool_decide_eq_true_2.
    + by rewrite bool_decide_eq_false_2.
Qed.

Lemma get_set_ne k k' v (d : t) : k ≠ k' -> get k' (set k v d) = get k' d.
Proof.
  intros Hne. induction d as [|[k0 v0] d IH]; simpl.
  - by rewrite bool_decide_eq_false_2.
  - case_bool_decide; subst; simpl.
    + by rewrite !bool_decide_eq_false_2.
    + case_bool_decide; [done | apply IH].
Qed.

Lemma keys_incr k (d : t) : keys (incr k d) = keys d.
Proof.
  unfold incr. destruct (get k d) eqn:E; [|done].
  apply keys_set_in. eauto using get_Some_keys.
Qed.

Lemma get_incr_eq k (d : t) : get k (incr k d) = S <$> get k d.
Proof.
  unfold incr. destruct (get k d) eqn:E; simpl; [apply get_set_eq | done].
Qed.

Lemma get_incr_ne k k' (d : t) : k ≠ k' -> get k' (incr k d) = get k' d.
Proof.
  intros Hne. unfold incr. destruct (get k d); [by apply get_set_ne | done].
Qed.

Lemma zeros_snoc files f : zeros (files ++ [f]) = set f 0 (zeros files).
Proof. unfold zeros. by rewrite fold_left_app. Qed.

Lemma zeros_spec files :
  NoDup (keys (zeros files))
  /\ (forall f, f ∈ keys (zeros files) <-> f ∈ files)
  /\ (forall f v, get f (zeros files) = Some v -> v = 0).
Proof.
  induction files as [|f files IH] using rev_ind.
  - split; [constructor|]. split; [done|]. intros f v. simpl. done.
  - destruct IH as (Hnd & Hin & Hz). rewrite zeros_snoc.
    destruct (decide (f ∈ keys (zeros files))) as [Hf|Hf].
    + rewrite keys_set_in by done. split; [done|]. split.
      * intros g. rewrite Hin, elem_of_app, list_elem_of_singleton.
        split; [auto|]. intros [? | ->]; [done | by apply Hin].
      * intros g v. destruct (decide (f = g)) as [->|Hne].
        -- rewrite get_set_eq. congruence.
        -- rewrite get_set_ne by done. apply Hz.
    + rewrite keys_set_notin by done. split.
      * apply NoDup_app. split; [done|]. split; [|apply NoDup_singleton].
        intros x Hx Hx'. apply list_elem_of_singleton in Hx' as ->. done.
      * split.
        -- intros g. rewrite !elem_of_app, Hin. done.
        -- intros g v. destruct (decide (f = g)) as [->|Hne].
           ++ rewrite get_set_eq. congruence.
           ++ rewrite get_set_ne by done. apply Hz.
Qed.

Lemma get_zeros files f : f ∈ files -> get f (zeros files) = Some 0.
Proof.
  intros Hf. destruct (zeros_spec files) as (_ & Hin & Hz).
  destruct (get f (zeros files)) as [v|] eqn:E.
  - by rewrite (Hz _ _ E).
  - apply get_None_keys in E. by apply Hin in Hf.
Qed.

Lemma elem_of_zero_degree f (d : t) :
  NoDup (keys d) -> f ∈ zero_degree d <-> get f d = Some 0.
Proof.
  unfold zero_degree. induction d as [|[k v] d IH]; simpl.
  - intros _. split; [intros H; by apply elem_of_nil in H | done].
  - intros [Hk Hnd]%NoDup_cons. specialize (IH Hnd).
    case_bool_decide as Hkf; subst.
    + destruct (Nat.eqb_spec v 0) as [->|Hv].
      * split; [done | intros _; left].
      * rewrite IH. split; [|congruence].
        intros Hg. apply get_Some_keys in Hg. done.
    + destruct (Nat.eqb v 0); [|done].
      rewrite elem_of_cons, IH. intuition congruence.
Qed.

Lemma zero_degree_keys f (d : t) : f ∈ zero_degree d -> f ∈ keys d.
Proof.
  unfold zero_degree, keys. induction d as [|[k v] d IH]; simpl.
  - intros H. by apply elem_of_nil in H.
  - destruct (Nat.eqb v 0).
    + rewrite !elem_of_cons. intuition.
    + intros H. right. auto.
Qed.

Lemma NoDup_zero_degree (d : t) : NoDup (keys d) -> NoDup (zero_degree d).
Proof.
  unfold zero_degree, keys. induction d as [|[k v] d IH]; simpl; [constructor|].
  intros [Hk Hnd]%NoDup_cons. destruct (Nat.eqb v 0); [|auto].
  apply NoDup_cons. split; [|auto].
  intros H. apply Hk. by apply zero_degree_keys.
Qed.

End PyDictFacts.

(** ** The error monad *)

Lemma bind_Ok {A B : Type} (m : result A) (f : A -> result B) (b : B) :
  m ≫= f = Ok b <-> exists a, m = Ok a /\ f a = Ok b.
Proof.
  destruct m as [a|e]; simpl.
  - split; [eauto | intros (a' & [= <-] & H); done].
  - split; [done | intros (a' & [=] & _)].
Qed.

Lemma fmap_Ok {A B : Type} (m : result A) (f : A -> B) (b : B) :
  f <$> m = Ok b <-> exists a, m = Ok a /\ b = f a.
Proof.
  destruct m as [a|e]; simpl.
  - split; [intros [= <-]; eauto | intros (a' & [= <-] & ->); done].
  - split; [done | intros (a' & [=] & _)].
Qed.

Lemma foldM_cons {A B : Type} (f : B -> A -> result B) (x : A) (l : list A) (b : B) :
  foldM f (x :: l) b = f b x ≫= foldM f l.
Proof. done. Qed.

Lemma foldM_app {A B : Type} (f : B -> A -> result B) (l1 l2 : list A) (b : B) :
  foldM f (l1 ++ l2) b = foldM f l1 b ≫= foldM f l2.
Proof.
  revert b. induction l1 as [|x l1 IH]; intros b; simpl; [done|].
  destruct (f b x); simpl; [apply IH | done].
Qed.

Lemma foldM_ext {A B : Type} (f g : B -> A -> result B) (l : list A) (b : B) :
  (forall b x, x ∈ l -> f b x = g b x) -> foldM f l b = foldM g l b.
Proof.
  revert b. induction l as [|x l IH]; intros b Hfg; simpl; [done|].
  rewrite (Hfg b x) by left. destruct (g b x); simpl; [|done].
  apply IH. intros b' y Hy. apply Hfg. by right.
Qed.

(** An invariant of the steps of a loop holds after the loop. *)
Lemma foldM_invariant {A B : Type} (P : B -> Prop) (f : B -> A -> result B)
    (l : list A) (b b' : B) :
  (forall b x b', x ∈ l -> P b -> f b x = Ok b' -> P b') ->
  P b -> foldM f l b = Ok b' -> P b'.
Proof.
  revert b. induction l as [|x l IH]; intros b Hstep Hb; simpl.
  - by intros [= <-].
  - intros (b1 & H1 & H2)%bind_Ok. apply (IH b1); [|eauto using list_elem_of_here|done].
    intros b0 y b0' Hy. apply Hstep. by right.
Qed.

Lemma mapM_Ok_length {A B : Type} (f : A -> result B) (l : list A) (l' : list B) :
  mapM f l = Ok l' -> Forall2 (fun x y => f x = Ok y) l l'.
Proof.
  revert l'. induction l as [|x l IH]; intros l'; simpl.
  - intros [= <-]. constructor.
  - intros (y & Hy & (ys & Hys & [= <-])%bind_Ok)%bind_Ok. constructor; auto.
Qed.

(** ** Sets as duplicate-free lists *)

Lemma elem_of_set_add x y l : x ∈ set_add y l <-> x = y \/ x ∈ l.
Proof.
  unfold set_add. case_bool_decide as Hy.
  - split; [auto | intros [-> | ?]; done].
  - rewrite elem_of_app, list_elem_of_singleton. tauto.
Qed.

Lemma NoDup_set_add y l : NoDup l -> NoDup (set_add y l).
Proof.
  intros Hl. unfold set_add. case_bool_decide as Hy; [done|].
  apply NoDup_app. split; [done|]. split; [|apply NoDup_singleton].
  intros x Hx Hx'. apply list_elem_of_singleton in Hx' as ->. done.
Qed.

Lemma NoDup_fold_left {A : Type} (step : list string -> A -> list string)
    (l : list A) (acc : list string) :
  (forall acc x, NoDup acc -> NoDup (step acc x)) ->
  NoDup acc -> NoDup (fold_left step l acc).
Proof.
  intros Hstep. revert acc. induction l as [|x l IH]; intros acc Hacc; simpl; auto.
Qed.

(** The imports of a file form a set. *)
Lemma NoDup_scan_imports fs p : NoDup (scan_imports fs p).
Proof.
  unfold scan_imports. destruct (Fs.read fs p) as [content|]; [|constructor].
  destruct (str_in _ _).
  - apply NoDup_fold_left; [|constructor].
    intros acc gs Hacc. by apply NoDup_set_add.
  - case_bool_decide; [|constructor].
    apply NoDup_fold_left; [|constructor].
    intros acc line Hacc. destruct (Re.match_ _ _ _); [by apply NoDup_set_add | done].
Qed.


(** ** Counting inbound references *)

Section Aggregation.

Variable cwd : string.
Variable fnmatchcase : string -> string -> bool.

Lemma count_import_keys m consumer table imp table' :
  count_import cwd m consumer table imp = Ok table' ->
  PyDict.keys table' = PyDict.keys table.
Proof.
  unfold count_import. intros (resolved & _ & H)%bind_Ok.
  destruct resolved as [r|]; [|by injection H as <-].
  destruct (negb _ && _); [|by injection H as <-].
  destruct (negb _); injection H as <-; [apply PyDictFacts.keys_incr | done].
Qed.

Lemma count_file_keys fs m table consumer table' :
  count_file cwd fs m table consumer = Ok table' ->
  PyDict.keys table' = PyDict.keys table.
Proof.
  unfold count_file.
  apply (foldM_invariant (fun t => PyDict.keys t = PyDict.keys table)); [|done].
  intros t imp t' _ Ht Hstep. rewrite <- Ht. by eapply count_import_keys.
Qed.

Lemma count_in_degree_keys fs m files table :
  count_in_degree cwd fs m files = Ok table ->
  PyDict.keys table = PyDict.keys (PyDict.zeros files).
Proof.
  unfold count_in_degree.
  apply (foldM_invariant (fun t => PyDict.keys t = PyDict.keys (PyDict.zeros files))); [|done].
  intros t c t' _ Ht Hstep. rewrite <- Ht. by eapply count_file_keys.
Qed.

(** The effect of one reference on the count of [d]. *)
Lemma count_import_get m consumer table imp table' d :
  count_import cwd m consumer table imp = Ok table' ->
  d ∈ PyDict.keys table -> d ≠ EmptyString ->
  PyDict.get d table' =
    (if bool_decide (consumer ≠ d /\ resolve_import cwd (PurePath.Path consumer) imp m = Ok (Some d))
     then S else id) <$> PyDict.get d table.
Proof.
  unfold count_import. intros (resolved & Hres & H)%bind_Ok Hd Hne.
  rewrite Hres.
  assert (Hid : forall o : option nat, id <$> o = o) by (by intros []).
  destruct resolved as [r|].
  - destruct (decide (r = d)) as [->|Hrd].
    + apply PyDictFacts.contains_keys in Hd. rewrite Hd in H.
      rewrite (bool_decide_eq_false_2 (d = EmptyString)) in H by done. simpl in H.
      case_bool_decide as Hc; simpl in H; injection H as <-.
      * rewrite bool_decide_eq_false_2 by (intros [? _]; done). by rewrite Hid.
      * rewrite bool_decide_eq_true_2 by (split; [congruence | done]).
        apply PyDictFacts.get_incr_eq.
    + rewrite bool_decide_eq_false_2 by (intros [_ [=]]; done). rewrite Hid.
      destruct (negb _ && _); [|by injection H as <-].
      destruct (negb _); injection H as <-; [|done].
      by apply PyDictFacts.get_incr_ne.
  - injection H as <-. rewrite bool_decide_eq_false_2 by (intros [_ [=]]). by rewrite Hid.
Qed.

Lemma count_imports_get m consumer d imps table table' :
  foldM (count_import cwd m consumer) imps table = Ok table' ->
  d ∈ PyDict.keys table -> d ≠ EmptyString ->
  PyDict.get d table' =
    (fun n => n + (if bool_decide (consumer = d) then 0
                   else length (filter (fun imp => resolve_import cwd (PurePath.Path consumer) imp m
                                                   = Ok (Some d)) imps)))
      <$> PyDict.get d table.
Proof.
  clear fnmatchcase.
  intros H Hd Hne. revert table H Hd.
  induction imps as [|imp imps IH]; intros table H Hd; simpl in H.
  - injection H as <-. destruct (PyDict.get d table); simpl; [|done].
    f_equal. case_bool_decide; simpl; lia.
  - apply bind_Ok in H as (t1 & H1 & H2).
    pose proof (count_import_keys _ _ _ _ _ H1) as Hk.
    rewrite (IH t1 H2) by (by rewrite Hk).
    rewrite (count_import_get _ _ _ _ _ d H1 Hd Hne).
    destruct (PyDict.get d table) as [n|]; simpl; [|done]. f_equal.
    rewrite filter_cons.
    destruct (decide (resolve_import cwd (PurePath.Path consumer) imp m = Ok (Some d)));
      repeat case_bool_decide; simpl; try lia; exfalso; intuition.
Qed.

Lemma count_files_get fs m d consumers table table' :
  foldM (count_file cwd fs m) consumers table = Ok table' ->
  d ∈ PyDict.keys table -> d ≠ EmptyString ->
  PyDict.get d table' = (fun n => n + inbound cwd fs m consumers d) <$> PyDict.get d table.
Proof.
  clear fnmatchcase.
  intros H Hd Hne. revert table H Hd.
  induction consumers as [|c consumers IH]; intros table H Hd; simpl in H.
  - injection H as <-. destruct (PyDict.get d table); simpl; [|done].
    f_equal. unfold inbound. simpl. lia.
  - apply bind_Ok in H as (t1 & H1 & H2).
    pose proof (count_file_keys _ _ _ _ _ H1) as Hk.
    rewrite (IH t1 H2) by (by rewrite Hk).
    rewrite (count_imports_get _ _ d _ _ _ H1 Hd Hne).
    destruct (PyDict.get d table) as [n|]; simpl; [|done]. f_equal.
    unfold inbound, references. simpl. symmetry. apply Nat.add_assoc.
Qed.

Lemma analyze_inv fs a r :
  analyze cwd fnmatchcase fs a = Ok r ->
  exists idx,
    PurePath.resolve (PurePath.Path cwd) (PurePath.Path (directory a)) = Ok (a_root r)
    /\ index_files fnmatchcase fs (a_root r) (ignore_patterns a) = Ok idx
    /\ a_files r = all_files idx
    /\ a_file_map r = <[FULL_PATHS := full_path_set idx]> (file_map idx)
    /\ count_in_degree cwd fs (a_file_map r) (a_files r) = Ok (in_degree r)
    /\ true_orphans r =
         filter (fun f => f ∉ get_entry_points (a_files r)) (zero_degree (in_degree r))
    /\ likely_entry_points r =
         filter (fun f => f ∈ get_entry_points (a_files r)) (zero_degree (in_degree r))
    /\ mapM (relative_str (a_root r)) (true_orphans r) = Ok (processed_orphans r)
    /\ mapM (relative_str (a_root r)) (likely_entry_points r) = Ok (processed_entry r).
Proof.
  unfold analyze.
  intros (root & Hroot & (idx & Hidx & (g & _ & (table & Htable
          & (po & Hpo & (pe & Hpe & [= <-])%bind_Ok)%bind_Ok)%bind_Ok)%bind_Ok)%bind_Ok)%bind_Ok.
  exists idx. simpl. repeat split; done.
Qed.

Lemma in_degree_NoDup fs a r :
  analyze cwd fnmatchcase fs a = Ok r -> NoDup (PyDict.keys (in_degree r)).
Proof.
  intros (idx & _ & _ & _ & _ & Hc & _)%analyze_inv.
  rewrite (count_in_degree_keys _ _ _ _ Hc). apply PyDictFacts.zeros_spec.
Qed.

Lemma in_degree_keys fs a r f :
  analyze cwd fnmatchcase fs a = Ok r ->
  f ∈ PyDict.keys (in_degree r) <-> f ∈ a_files r.
Proof.
  intros (idx & _ & _ & _ & _ & Hc & _)%analyze_inv.
  rewrite (count_in_degree_keys _ _ _ _ Hc). apply PyDictFacts.zeros_spec.
Qed.

Lemma output_lists_indexed fs a r f :
  analyze cwd fnmatchcase fs a = Ok r ->
  f ∈ true_orphans r \/ f ∈ likely_entry_points r -> f ∈ a_files r.
Proof.
  intros Hr Hf. apply (in_degree_keys fs a r f Hr), PyDictFacts.zero_degree_keys.
  destruct (analyze_inv _ _ _ Hr) as (idx & _ & _ & _ & _ & _ & Hto & Hle & _).
  rewrite Hto, Hle in Hf.
  destruct Hf as [Hf | Hf]; by apply list_elem_of_filter in Hf as [_ ?].
Qed.

(** C10: the keys of the in-degree table are the indexed files, before and
    after the aggregation; a counting step never changes the keys, and a
    reference whose target is not a key leaves the table as it is; both
    output lists hold indexed files only. *)
Theorem in_degree_keys_are_the_indexed_files fs a r :
  analyze cwd fnmatchcase fs a = Ok r ->
  PyDict.keys (in_degree r) = PyDict.keys (PyDict.zeros (a_files r))
  /\ (forall f, f ∈ PyDict.keys (in_degree r) <-> f ∈ a_files r)
  /\ (forall consumer table imp table',
        count_import cwd (a_file_map r) consumer table imp = Ok table' ->
        PyDict.keys table' = PyDict.keys table)
  /\ (forall consumer table imp d,
        resolve_import cwd (PurePath.Path consumer) imp (a_file_map r) = Ok (Some d) ->
        d ∉ PyDict.keys table ->
        count_import cwd (a_file_map r) consumer table imp = Ok table)
  /\ (forall f, f ∈ true_orphans r -> f ∈ a_files r)
  /\ (forall f, f ∈ likely_entry_points r -> f ∈ a_files r).
Proof.
  intros Hr. pose proof (in_degree_keys fs a r) as Hkeys.
  destruct (analyze_inv _ _ _ Hr) as (idx & _ & _ & _ & _ & Hc & Hto & Hle & _).
  split; [by apply (count_in_degree_keys _ _ _ _ Hc)|].
  split; [intros f; by apply Hkeys|].
  split; [apply count_import_keys|].
  split.
  - intros consumer table imp d Hres Hd. unfold count_import. rewrite Hres. simpl.
    destruct (PyDict.contains d table) eqn:E.
    + apply PyDictFacts.contains_keys in E. done.
    + by rewrite andb_false_r.
  - split; intros f Hf; apply (output_lists_indexed fs a r f Hr); auto.
Qed.


Lemma count_import_self m f table imp :
  resolve_import cwd (PurePath.Path f) imp m = Ok (Some f) ->
  count_import cwd m f table imp = Ok table.
Proof.
  intros Hself. unfold count_import. rewrite Hself. simpl.
  rewrite (bool_decide_eq_true_2 (f = f)) by done. simpl.
  by destruct (negb _ && _).
Qed.

(** C8: a reference that resolves to the file that holds it changes no
    count: the run gives the same table as a run on a tree where that file
    lacks the reference and all else is equal. *)
Theorem self_reference_discarded fs fs' m files f imp l1 l2 :
  resolve_import cwd (PurePath.Path f) imp m = Ok (Some f) ->
  scan_imports fs (PurePath.Path f) = l1 ++ imp :: l2 ->
  scan_imports fs' (PurePath.Path f) = l1 ++ l2 ->
  (forall g, g ∈ files -> g ≠ f ->
     scan_imports fs' (PurePath.Path g) = scan_imports fs (PurePath.Path g)) ->
  count_in_degree cwd fs m files = count_in_degree cwd fs' m files.
Proof.
  intros Hself Hfs Hfs' Hothers. unfold count_in_degree.
  apply foldM_ext. intros table g Hg. unfold count_file.
  destruct (decide (g = f)) as [->|Hne].
  - rewrite Hfs, Hfs', !foldM_app. destruct (foldM _ l1 table) as [t1|]; [|done].
    change (foldM (count_import cwd m f) (imp :: l2) t1
            = foldM (count_import cwd m f) l2 t1).
    rewrite foldM_cons, (count_import_self m f t1 imp Hself). done.
  - by rewrite Hothers.
Qed.

End Aggregation.

(** ** Paths and their strings *)

Module PathFacts.
Import PurePath.

Lemma split_no_sep sep s x : x ∈ split sep s -> sep ∉ list_ascii_of_string x.
Proof.
  revert x. induction s as [|c s IH]; intros x; simpl.
  - intros ->%list_elem_of_singleton. apply not_elem_of_nil.
  - case_bool_decide as Hc.
    + intros [-> | Hx]%elem_of_cons; [apply not_elem_of_nil | auto].
    + destruct (split sep s) as [|h t] eqn:E.
      * intros ->%list_elem_of_singleton. simpl.
        apply not_elem_of_cons. split; [congruence | apply not_elem_of_nil].
      * intros [-> | Hx]%elem_of_cons.
        -- simpl. apply not_elem_of_cons. split; [congruence|]. apply IH. left.
        -- apply IH. by right.
Qed.

Lemma split_app_sep sep x s :
  sep ∉ list_ascii_of_string x -> split sep (x +:+ String sep s) = x :: split sep s.
Proof.
  induction x as [|c x IH]; simpl.
  - intros _. by rewrite bool_decide_eq_true_2.
  - intros [Hc Hx]%not_elem_of_cons.
    rewrite bool_decide_eq_false_2 by congruence. by rewrite IH.
Qed.

Lemma split_one sep x : sep ∉ list_ascii_of_string x -> split sep x = [x].
Proof.
  induction x as [|c x IH]; simpl; [done|].
  intros [Hc Hx]%not_elem_of_cons.
  rewrite bool_decide_eq_false_2 by congruence. by rewrite IH.
Qed.

Lemma split_join ps :
  Forall (fun x => "/"%char ∉ list_ascii_of_string x) ps -> ps ≠ [] ->
  split "/" (join "/" ps) = ps.
Proof.
  induction ps as [|x ps IH]; [done|]. intros [Hx Hps]%Forall_cons _.
  destruct ps as [|y ps].
  - simpl. by apply split_one.
  - change (join "/" (x :: y :: ps)) with (x +:+ String "/" (join "/" (y :: ps))).
    rewrite split_app_sep by done. f_equal. by apply IH.
Qed.

Lemma is_part_spec x :
  Is_true (is_part x) <->
  x ≠ EmptyString /\ x ≠ "." /\ "/"%char ∉ list_ascii_of_string x.
Proof.
  unfold is_part, keep_part, PyStr.contains.
  rewrite !andb_True, !negb_True, !bool_decide_spec. tauto.
Qed.

Lemma filter_keep_parts ps :
  Forall (fun x => Is_true (is_part x)) ps ->
  filter (fun x => Is_true (keep_part x)) ps = ps.
Proof.
  induction 1 as [|x ps Hx _ IH]; [done|].
  rewrite filter_cons, IH. destruct (decide _) as [|Hn]; [done|].
  exfalso. apply Hn. unfold is_part in Hx. by apply andb_True in Hx as [? _].
Qed.

Lemma parse_parts_join ps :
  Forall (fun x => Is_true (is_part x)) ps ->
  parse_parts (String "/" (join "/" ps)) = ps.
Proof.
  intros Hps. unfold parse_parts. simpl.
  rewrite filter_cons. destruct (decide _) as [Hk|_]; [done|].
  destruct ps as [|x ps]; [done|].
  rewrite split_join; [by apply filter_keep_parts | | done].
  eapply Forall_impl; [exact Hps|]. intros y Hy. by apply is_part_spec in Hy as (_ & _ & ?).
Qed.

(** Parsing the string of a well-formed path gives the path back. *)
Lemma Path_str p : well_formed p -> Path (str p) = p.
Proof.
  destruct p as [abs ps]. intros [Habs Hps]. cbn [is_abs parts] in *. subst abs.
  unfold Path, str. cbn [is_abs parts].
  change ("/" +:+ join "/" ps) with (String "/" (join "/" ps)).
  rewrite parse_parts_join by done. reflexivity.
Qed.

Lemma str_nonempty p : is_abs p = true -> str p ≠ EmptyString.
Proof. unfold str. by intros ->. Qed.

Lemma parse_parts_are_parts s : Forall (fun x => Is_true (is_part x)) (parse_parts s).
Proof.
  unfold parse_parts. apply Forall_forall. intros x [Hk Hx]%list_elem_of_filter.
  unfold is_part. apply andb_True. split; [done|].
  apply negb_True. unfold PyStr.contains. rewrite bool_decide_spec.
  by eapply split_no_sep.
Qed.

Lemma joinpath_well_formed p s : well_formed p -> well_formed (joinpath p s).
Proof.
  intros [Habs Hps]. unfold joinpath. destruct (startswith s "/") eqn:E.
  - split; [done | apply parse_parts_are_parts].
  - split; [done|]. simpl. apply Forall_app. split; [done | apply parse_parts_are_parts].
Qed.

Lemma Forall_removelast {A : Type} (P : A -> Prop) (l : list A) :
  Forall P l -> Forall P (removelast l).
Proof.
  induction 1 as [|x l Hx Hl IH]; [constructor|].
  simpl. destruct l; [constructor|]. constructor; [done | apply IH].
Qed.

Lemma normalize_Forall (P : string -> Prop) stack ps :
  Forall P stack -> Forall P ps -> Forall P (normalize stack ps).
Proof.
  intros Hs Hps. revert stack Hs. induction Hps as [|x ps Hx _ IH]; intros stack Hs; simpl.
  - done.
  - case_bool_decide; apply IH.
    + by apply Forall_removelast.
    + apply Forall_app. split; [done | by constructor].
Qed.

Lemma resolve_well_formed s d root :
  resolve (Path s) (Path d) = Ok root -> well_formed root.
Proof.
  unfold resolve. case_bool_decide; [done|]. intros [= <-].
  split; [done|]. simpl. apply normalize_Forall; [constructor|].
  destruct (startswith d "/"); [apply parse_parts_are_parts|].
  apply Forall_app. split; apply parse_parts_are_parts.
Qed.

End PathFacts.

(** ** Lower case and suffixes *)

Module StrFacts.

Lemma lower_char_dot a :
  bool_decide (lower_char a = "."%char) = bool_decide (a = "."%char).
Proof. destruct a as [[] [] [] [] [] [] [] []]; reflexivity. Qed.

Lemma app_empty_r s : s +:+ EmptyString = s.
Proof.
  induction s as [|c s IH]; [done|].
  change (String c (s +:+ EmptyString) = String c s). by f_equal.
Qed.

Lemma lower_app s1 s2 : lower (s1 +:+ s2) = lower s1 +:+ lower s2.
Proof.
  induction s1 as [|c s1 IH]; [done|].
  change (String (lower_char c) (lower (s1 +:+ s2))
          = String (lower_char c) (lower s1 +:+ lower s2)).
  by f_equal.
Qed.

Lemma length_lower s : String.length (lower s) = String.length s.
Proof. induction s as [|c s IH]; simpl; [done | by rewrite IH]. Qed.

Lemma rfind_lower s : rfind "." (lower s) = rfind "." s.
Proof.
  induction s as [|c s IH]; simpl; [done|].
  rewrite IH, lower_char_dot. done.
Qed.

Lemma sdrop_lower n s : sdrop n (lower s) = lower (sdrop n s).
Proof.
  revert s. induction n as [|n IH]; intros [|c s]; simpl; auto.
Qed.

(** The suffix of a name in lower case is the lower case of its suffix. *)
Lemma name_suffix_lower nm :
  PurePath.name_suffix (lower nm) = lower (PurePath.name_suffix nm).
Proof.
  unfold PurePath.name_suffix, PurePath.suffix_index.
  rewrite rfind_lower, length_lower.
  destruct (rfind "." nm) as [i|]; [|done].
  destruct (_ && _); [apply sdrop_lower | done].
Qed.

End StrFacts.

(** ** Anchored patterns *)

Module ReFacts.
Import Re.

Lemma search_from_Bol ic r s : search_from ic (Cat Bol r) false s = None.
Proof. induction s as [|c s IH]; simpl; [done | exact IH]. Qed.

(** A pattern that starts with [^] can only match at position 0. *)
Lemma search_Bol ic r s m :
  search ic (Cat Bol r) s = Some m ->
  run ic r (MState true s []) Some = Some m.
Proof.
  unfold search. destruct s as [|c s]; simpl.
  - by destruct (run ic r _ _).
  - destruct (run ic r _ _); [done|]. by rewrite search_from_Bol.
Qed.

(** A literal matched without regard to case takes a prefix of the subject
    that equals the literal in lower case. *)
Lemma run_Lit lit st k m :
  run true (Lit lit) st k = Some m ->
  exists pre post b,
    rest st = pre +:+ post /\ lower pre = lower lit
    /\ k (MState b post (groups st)) = Some m.
Proof.
  revert st. induction lit as [|c lit IH]; intros st; simpl.
  - intros Hk. exists EmptyString, (rest st), (at_start st). by destruct st.
  - unfold step. destruct (rest st) as [|a s'] eqn:E; [done|].
    unfold chr_eq. case_bool_decide as Ha; [|done].
    intros (pre & post & b & Hrest & Hlow & Hk)%IH. simpl in *.
    exists (String a pre), post, b. simpl. by rewrite Hrest, Hlow, Ha.
Qed.

Lemma search_exact lit nm m :
  search true (Seq [Bol; Lit lit; Eol]) nm = Some m ->
  lower nm = lower lit \/ lower nm = lower lit +:+ String LF EmptyString.
Proof.
  intros H%search_Bol. simpl in H.
  apply run_Lit in H as (pre & post & b & Hrest & Hlow & Hk). simpl in *.
  subst nm. rewrite StrFacts.lower_app, Hlow.
  repeat case_bool_decide; simpl in *; try done; subst post;
    first [left; apply StrFacts.app_empty_r | right; reflexivity].
Qed.

End ReFacts.

(** ** The index *)

Section Index.

Variable cwd : string.
Variable fnmatchcase : string -> string -> bool.

Lemma walk_well_formed keep :
  forall n top, PurePath.well_formed top ->
    Forall (fun e => PurePath.well_formed e.1) (Fs.walk keep top n).
Proof.
  fix IH 1. intros n top Htop. destruct n as [c|es]; simpl; [constructor|].
  constructor; [done|].
  induction es as [|[d c] es IHes]; [constructor|].
  pose proof (IH c (PurePath.joinpath top d)
                (PathFacts.joinpath_well_formed top d Htop)) as Hc.
  destruct c as [c|es']; [exact IHes|].
  destruct (keep d); [|exact IHes].
  apply Forall_app. split; [exact Hc | exact IHes].
Qed.

Lemma index_file_indexed root pats dirpath idx f idx' :
  PurePath.well_formed dirpath ->
  Forall indexed_path (all_files idx) ->
  index_file fnmatchcase root pats dirpath idx f = Ok idx' ->
  Forall indexed_path (all_files idx').
Proof.
  intros Hdir Hidx. unfold index_file.
  destruct (str_in _ EXTENSIONS) eqn:Hext; [|by intros [= <-]].
  intros (rel & _ & (ign & _ & H)%bind_Ok)%bind_Ok.
  destruct ign; injection H as <-; [done|]. simpl.
  apply Forall_app. split; [done|]. constructor; [|constructor].
  exists (PurePath.joinpath dirpath f). split; [done|].
  split; [by apply PathFacts.joinpath_well_formed|].
  unfold str_in in Hext. by apply bool_decide_eq_true in Hext.
Qed.

Lemma index_files_indexed fs root pats idx :
  PurePath.well_formed root ->
  index_files fnmatchcase fs root pats = Ok idx ->
  Forall indexed_path (all_files idx).
Proof.
  intros Hroot. unfold index_files.
  assert (Hwalk : Forall (fun e => PurePath.well_formed e.1) (Fs.walk_path keep_dir fs root)).
  { unfold Fs.walk_path. destruct (Fs.lookup _ _); [by apply walk_well_formed | constructor]. }
  apply (foldM_invariant (fun i => Forall indexed_path (all_files i))); [|constructor].
  intros i [dirpath names] i' He Hi. unfold index_dir. simpl.
  apply (foldM_invariant (fun i => Forall indexed_path (all_files i))); [|done].
  intros j f j' _ Hj. apply index_file_indexed; [|done].
  rewrite Forall_forall in Hwalk. apply (Hwalk _ He).
Qed.

(** Every file of a run is the string of a well-formed path with a
    recognized suffix. *)
Lemma analyze_files_indexed fs a r :
  analyze cwd fnmatchcase fs a = Ok r -> Forall indexed_path (a_files r).
Proof.
  intros (idx & Hroot & Hidx & -> & _)%analyze_inv.
  eapply index_files_indexed; [|exact Hidx].
  by eapply PathFacts.resolve_well_formed.
Qed.

Lemma manifest_name_not_indexed f nm m :
  indexed_path f -> nm ∈ MANIFEST_NAMES ->
  Re.search true (exact nm) (PurePath.name (PurePath.Path f)) = Some m -> False.
Proof.
  intros (p & -> & Hwf & Hext) Hnm Hm. rewrite PathFacts.Path_str in Hm by done.
  unfold PurePath.suffix in Hext. rewrite <- StrFacts.name_suffix_lower in Hext.
  assert (Hb : str_in (PurePath.name_suffix (lower (PurePath.name p))) EXTENSIONS = true).
  { unfold str_in. by apply bool_decide_eq_true_2. }
  clear Hext. apply ReFacts.search_exact in Hm.
  unfold MANIFEST_NAMES in Hnm.
  repeat (apply elem_of_cons in Hnm as [-> | Hnm]);
    [..| by apply elem_of_nil in Hnm];
    destruct Hm as [Hm | Hm]; rewrite Hm in Hb; vm_compute in Hb; discriminate.
Qed.

(** C9: an element of the entry-point list is an indexed file whose
    suffix, in lower case, is a recognized extension, and no manifest
    pattern of the whitelist matches its name. *)
Theorem entry_points_have_source_suffix fs a r f :
  analyze cwd fnmatchcase fs a = Ok r ->
  f ∈ likely_entry_points r ->
  f ∈ a_files r
  /\ lower (PurePath.suffix (PurePath.Path f)) ∈ EXTENSIONS
  /\ (forall nm, nm ∈ MANIFEST_NAMES ->
        exact nm ∈ ENTRY_POINT_PATTERNS
        /\ Re.search true (exact nm) (PurePath.name (PurePath.Path f)) = None).
Proof.
  intros Hr Hf.
  assert (Hin : f ∈ a_files r).
  { apply (output_lists_indexed cwd fnmatchcase fs a r f Hr). by right. }
  pose proof (analyze_files_indexed _ _ _ Hr) as Hall.
  rewrite Forall_forall in Hall. specialize (Hall f Hin).
  split; [done|]. split.
  - destruct Hall as (p & -> & Hwf & Hext). by rewrite PathFacts.Path_str.
  - intros nm Hnm. split.
    + unfold MANIFEST_NAMES in Hnm.
      repeat (apply elem_of_cons in Hnm as [-> | Hnm]);
        [..| by apply elem_of_nil in Hnm];
        unfold ENTRY_POINT_PATTERNS, exact; apply list_elem_of_In; simpl; tauto.
    + destruct (Re.search _ _ _) as [m|] eqn:E; [|done].
      exfalso. by eapply manifest_name_not_indexed.
Qed.

(** C2 (as the code has it): the count of an indexed file is the number of
    distinct reference strings, over the other files, that resolve to it;
    the references of one file form a set, so a string that occurs twice in
    a file counts once. *)
Theorem in_degree_counts_distinct_references fs a r d :
  analyze cwd fnmatchcase fs a = Ok r ->
  d ∈ a_files r ->
  PyDict.get d (in_degree r) = Some (inbound cwd fs (a_file_map r) (a_files r) d)
  /\ (forall consumer, NoDup (scan_imports fs (PurePath.Path consumer))).
Proof.
  intros Hr Hd. split; [|intros consumer; apply NoDup_scan_imports].
  pose proof (analyze_files_indexed _ _ _ Hr) as Hall.
  rewrite Forall_forall in Hall. destruct (Hall d Hd) as (p & -> & [Habs _] & _).
  destruct (analyze_inv _ _ _ _ _ Hr) as (idx & _ & _ & _ & _ & Hc & _).
  unfold count_in_degree in Hc.
  rewrite (count_files_get cwd fs _ (PurePath.str p) _ _ _ Hc).
  - by rewrite PyDictFacts.get_zeros.
  - by apply PyDictFacts.zeros_spec.
  - by apply PathFacts.str_nonempty.
Qed.

End Index.

(** ** Resolving one reference *)

Section Resolution.

Variable cwd : string.

Lemma first_module_match_spec py_path candidates :
  match first_module_match py_path candidates with
  | Some c =>
      exists before after,
        candidates = before ++ c :: after
        /\ endswith c (py_path +:+ ".py") = true
        /\ Forall (fun x => endswith x (py_path +:+ ".py") = false) before
  | None => Forall (fun x => endswith x (py_path +:+ ".py") = false) candidates
  end.
Proof.
  induction candidates as [|c cs IH]; simpl; [constructor|].
  destruct (endswith c _) eqn:E.
  - exists [], cs. repeat split; [done | constructor].
  - destruct (first_module_match py_path cs) as [c'|].
    + destruct IH as (before & after & -> & Hc & Hb).
      exists (c :: before), after. repeat split; [done | by constructor].
    + by constructor.
Qed.

(** C3 (as the code has it): a reference that does not start with a dot is
    converted by replacing dots with slashes; the candidates are the index
    entries under the last component of the converted path; the first
    candidate whose string ends with the converted path followed by [.py]
    is returned, and no candidate ending so means no edge. *)
Theorem module_reference_needs_py_suffix base imp (m : gmap string (list string)) :
  startswith imp "." = false ->
  let py_path := replace_char "." "/" imp in
  let candidates := map_get m (PurePath.name (PurePath.Path py_path)) in
  exists r,
    resolve_import cwd base imp m = Ok r
    /\ match r with
       | Some c =>
           exists before after,
             candidates = before ++ c :: after
             /\ endswith c (py_path +:+ ".py") = true
             /\ Forall (fun x => endswith x (py_path +:+ ".py") = false) before
       | None => Forall (fun x => endswith x (py_path +:+ ".py") = false) candidates
       end.
Proof.
  intros Hdot py_path candidates. unfold resolve_import, resolve_import_in.
  rewrite Hdot. simpl.
  eexists. split; [reflexivity|]. apply first_module_match_spec.
Qed.

Lemma try_suffixes_spec target full exts :
  PurePath.name target ≠ EmptyString ->
  try_suffixes target full exts
  = Ok (head (filter (fun c => c ∈ full)
                ((fun ext => PurePath.str (replace_suffix target ext)) <$> exts))).
Proof.
  intros Hname. induction exts as [|ext exts IH]; simpl; [done|].
  unfold PurePath.with_suffix. rewrite bool_decide_eq_false_2 by done. simpl.
  fold (replace_suffix target ext). rewrite filter_cons. unfold str_in.
  destruct (decide _) as [Hin|Hin].
  - by rewrite bool_decide_eq_true_2.
  - by rewrite bool_decide_eq_false_2.
Qed.

Lemma try_index_files_spec target full exts :
  try_index_files target full exts
  = head (filter (fun c => c ∈ full)
            ((fun ext => PurePath.str (PurePath.joinpath target ("index" +:+ ext))) <$> exts)).
Proof.
  induction exts as [|ext exts IH]; simpl; [done|].
  rewrite filter_cons. unfold str_in.
  destruct (decide _) as [Hin|Hin].
  - by rewrite bool_decide_eq_true_2.
  - by rewrite bool_decide_eq_false_2.
Qed.




Lemma relative_candidates_in_Permutation order order' target :
  order ≡ₚ order' ->
  relative_candidates_in order target ≡ₚ relative_candidates_in order' target.
Proof. intros H. unfold relative_candidates_in. by rewrite H. Qed.

(** A relative reference none of whose candidates is indexed is unresolved
    in whatever order the extensions are tried. *)
Lemma resolve_import_in_none order base imp (m : gmap string (list string)) target :
  order ≡ₚ EXTENSIONS ->
  startswith imp "." = true ->
  PurePath.resolve (PurePath.Path cwd)
    (PurePath.joinpath (PurePath.parent base) imp) = Ok target ->
  PurePath.name target ≠ EmptyString ->
  forallb (fun c => negb (str_in c (map_get m FULL_PATHS)))
    (relative_candidates_in EXTENSIONS target) = true ->
  resolve_import_in cwd order base imp m = Ok None.
Proof.
  intros Horder Hdot Hres Hname Hnone.
  assert (Hall : forall c, c ∈ relative_candidates_in order target ->
                   c ∉ map_get m FULL_PATHS).
  { intros c Hc. rewrite (relative_candidates_in_Permutation _ _ target Horder) in Hc.
    apply list_elem_of_In in Hc. rewrite forallb_forall in Hnone.
    specialize (Hnone c Hc). apply negb_true_iff in Hnone.
    unfold str_in in Hnone. by apply bool_decide_eq_false in Hnone. }
  unfold relative_candidates_in in Hall.
  unfold resolve_import_in. rewrite Hdot, Hres. cbn [negb]. unfold str_in.
  rewrite bool_decide_eq_false_2 by (apply Hall; left).
  rewrite try_suffixes_spec by done. rewrite try_index_files_spec.
  assert (Hnil : forall l : list string,
            (forall c, c ∈ l -> c ∉ map_get m FULL_PATHS) ->
            filter (fun c => c ∈ map_get m FULL_PATHS) l = []).
  { intros l Hl. induction l as [|x l IH]; [done|].
    rewrite filter_cons. destruct (decide _) as [Hx|_].
    - exfalso. apply (Hl x); [left | done].
    - apply IH. intros c Hc. apply Hl. by right. }
  rewrite !Hnil; [done | |].
  - intros c Hc. apply Hall. right. apply elem_of_app. by left.
  - intros c Hc. apply Hall. right. apply elem_of_app. by right.
Qed.

End Resolution.

(** ** The root directory *)

Section Root.

Variable cwd : string.
Variable fnmatchcase : string -> string -> bool.

(** C5 (as the code has it): when the root is missing or is not a directory
    the walk yields nothing, and the run ends with status 0 and a report
    without files. *)
Theorem missing_root_gives_empty_report fs a root :
  PurePath.resolve (PurePath.Path cwd) (PurePath.Path (directory a)) = Ok root ->
  (forall es, Fs.lookup fs (PurePath.parts root) ≠ Some (Fs.Dir es)) ->
  main cwd fnmatchcase fs a
  = Ok (match format_ a with
        | json => JsonDoc [] [] 0
        | text => Printed (render_text [] [])
        end)
  /\ exit_status (main cwd fnmatchcase fs a) = 0.
Proof.
  intros Hroot Hdir.
  assert (Hwalk : Fs.walk_path keep_dir fs root = []).
  { unfold Fs.walk_path. destruct (Fs.lookup fs _) as [[c|es]|] eqn:E; [done | | done].
    by destruct (Hdir es). }
  assert (Hmain : main cwd fnmatchcase fs a
                  = Ok (match format_ a with
                        | json => JsonDoc [] [] 0
                        | text => Printed (render_text [] [])
                        end)).
  { unfold main, analyze. rewrite Hroot. cbn [mbind result_bind].
    unfold index_files. rewrite Hwalk. by destruct (format_ a). }
  split; [done | by rewrite Hmain].
Qed.

End Root.

(** ** The runs on the example trees *)

Lemma sorted_is_sorted l : Sorted String.le (sorted l).
Proof. apply (Sorted_merge_sort String.le). Qed.

(** The text report lists each group in sorted order. *)
Lemma text_report_sorted processed_orphans processed_entry :
  exists os es,
    Sorted String.le os /\ Sorted String.le es
    /\ os ≡ₚ processed_orphans /\ es ≡ₚ processed_entry
    /\ (processed_orphans ≠ [] ->
        forall f, f ∈ os ->
          "  [?] " +:+ f ∈ render_text processed_orphans processed_entry).
Proof.
  exists (sorted processed_orphans), (sorted processed_entry).
  split; [apply sorted_is_sorted|]. split; [apply sorted_is_sorted|].
  split; [apply merge_sort_Permutation|]. split; [apply merge_sort_Permutation|].
  intros Hne f Hf. unfold render_text.
  destruct processed_orphans as [|o os]; [done|].
  rewrite !elem_of_app. right. right. right. left.
  apply list_elem_of_fmap. by exists f.
Qed.

(** C1 (as the code has it): in Scenario B the reference extracted from
    [main.py] is [utils]; the index has no entry under that name, so the
    reference resolves to nothing, [utils/helper.py] keeps count 0 and is
    listed with [utils/unused.py]; [main.py] is the only entry point. *)
Theorem scenario_B_reports_helper cwd fnmatchcase :
  scan_imports scenario_B (PurePath.Path "/proj/main.py") = ["utils"]
  /\ resolve_import cwd (PurePath.Path "/proj/main.py") "utils"
       (file_map_of scenario_B "/proj") = Ok None
  /\ in_degree <$> analyze cwd fnmatchcase scenario_B (Args "/proj" json "")
     = Ok [("/proj/main.py", 0); ("/proj/utils/helper.py", 0);
           ("/proj/utils/unused.py", 0)]
  /\ main cwd fnmatchcase scenario_B (Args "/proj" json "")
     = Ok (JsonDoc ["utils/helper.py"; "utils/unused.py"] ["main.py"] 2).
Proof. repeat split; vm_compute; reflexivity. Qed.

Lemma scenario_B_expected_output_refuted :
  ~ exists r,
      analyze "/" no_fnmatch scenario_B (Args "/proj" json "") = Ok r
      /\ processed_orphans r = ["utils/unused.py"]
      /\ processed_entry r = ["main.py"]
      /\ PyDict.get "/proj/utils/helper.py" (in_degree r) = Some 1.
Proof.
  intros (r & Hr & Ho & _). vm_compute in Hr. injection Hr as <-.
  vm_compute in Ho. discriminate.
Qed.

Lemma repeated_import_counts_once :
  splitlines repeated_text = ["import helper"; "import helper"]
  /\ exists r,
       analyze "/" no_fnmatch repeated_import (Args "/p" json "") = Ok r
       /\ resolve_import "/" (PurePath.Path "/p/main.py") "helper" (a_file_map r)
          = Ok (Some "/p/helper.py")
       /\ PyDict.get "/p/helper.py" (in_degree r) = Some 1.
Proof.
  split; [vm_compute; reflexivity|].
  eexists. split; [vm_compute; reflexivity|]. split; vm_compute; reflexivity.
Qed.

Lemma js_suffix_rejected_for_module_reference :
  startswith "utils" "." = false
  /\ map_get (file_map_of module_js "/r") "utils" = ["/r/utils.js"]
  /\ endswith "/r/utils.js" (replace_char "." "/" "utils" +:+ ".js") = true
  /\ str_in ".js" EXTENSIONS = true
  /\ resolve_import "/" (PurePath.Path "/r/main.js") "utils" (file_map_of module_js "/r")
     = Ok None.
Proof. repeat split; vm_compute; reflexivity. Qed.


(** In no iteration order is the dotted target resolved. *)
Lemma dotted_target_unresolved_in_every_order order :
  order ≡ₚ EXTENSIONS ->
  resolve_import_in "/" order (PurePath.Path "/r/main.ts") "./a.service"
    (file_map_of dotted_name "/r") = Ok None.
Proof.
  intros Horder.
  apply (resolve_import_in_none "/" order _ _ _ (PurePath.Path "/r/a.service") Horder);
    [reflexivity | vm_compute; reflexivity | vm_compute; discriminate
    | vm_compute; reflexivity].
Qed.

(** When two candidates of one step are indexed, the iteration order of the
    set decides between them. *)
Lemma iteration_order_decides_between_suffixes :
  reverse EXTENSIONS ≡ₚ EXTENSIONS
  /\ resolve_import_in "/" EXTENSIONS (PurePath.Path "/p/index.js") "./a"
       (file_map_of two_suffixes "/p") = Ok (Some "/p/a.js")
  /\ resolve_import_in "/" (reverse EXTENSIONS) (PurePath.Path "/p/index.js") "./a"
       (file_map_of two_suffixes "/p") = Ok (Some "/p/a.ts").
Proof.
  split; [apply reverse_Permutation|]. split; vm_compute; reflexivity.
Qed.

Lemma missing_root_exits_with_status_zero :
  Fs.lookup scenario_B ["nothere"] = None
  /\ main "/" no_fnmatch scenario_B (Args "/nothere" json "") = Ok (JsonDoc [] [] 0)
  /\ exit_status (main "/" no_fnmatch scenario_B (Args "/nothere" json "")) = 0.
Proof. repeat split; vm_compute; reflexivity. Qed.

(** A relative reference to the root of the file system ends the run with
    an uncaught [ValueError]: [with_suffix] is called outside the [try]. *)
Lemma reference_to_file_system_root_raises cwd fnmatchcase :
  main cwd fnmatchcase top_level_parent (Args "/app" json "") = Raise ValueError
  /\ exit_status (main cwd fnmatchcase top_level_parent (Args "/app" json "")) = 1.
Proof. split; vm_compute; reflexivity. Qed.

(** C6: with the JSON format the lists are written in the order of the
    walk, which need not be sorted. *)
Theorem json_lists_keep_walk_order cwd fnmatchcase :
  main cwd fnmatchcase unsorted_listing (Args "/p" json "")
  = Ok (JsonDoc ["b.py"; "a.py"] [] 2)
  /\ ~ Sorted String.le ["b.py"; "a.py"]
  /\ main cwd fnmatchcase unsorted_listing (Args "/p" text "")
     = Ok (Printed (render_text ["b.py"; "a.py"] []))
  /\ sorted ["b.py"; "a.py"] = ["a.py"; "b.py"].
Proof.
  split; [vm_compute; reflexivity|]. split; [|split; vm_compute; reflexivity].
  intros H. apply Sorted_inv in H as [_ H]. apply HdRel_inv in H.
  vm_compute in H. exact H.
Qed.

Lemma upper_case_suffix_is_an_entry_point :
  exists r,
    analyze "/" no_fnmatch upper_case_name (Args "/p" json "") = Ok r
    /\ likely_entry_points r = ["/p/MAIN.PY"]
    /\ PurePath.suffix (PurePath.Path "/p/MAIN.PY") = ".PY"
    /\ str_in ".PY" EXTENSIONS = false.
Proof.
  eexists. split; [vm_compute; reflexivity|]. repeat split; vm_compute; reflexivity.
Qed.

(** ** The theorems at concrete runs *)

Lemma in_degree_counts_distinct_references_witness :
  exists r,
    analyze "/" no_fnmatch repeated_import (Args "/p" json "") = Ok r
    /\ PyDict.get "/p/helper.py" (in_degree r)
       = Some (inbound "/" repeated_import (a_file_map r) (a_files r) "/p/helper.py").
Proof.
  eexists. split; [vm_compute; reflexivity|].
  apply (in_degree_counts_distinct_references "/" no_fnmatch repeated_import
           (Args "/p" json "")).
  - vm_compute; reflexivity.
  - apply list_elem_of_In. vm_compute. auto.
Defined.

Lemma module_reference_needs_py_suffix_witness :
  startswith "utils.helper" "." = false
  /\ exists r,
       resolve_import "/" (PurePath.Path "/proj/main.py") "utils.helper"
         (file_map_of scenario_B "/proj") = Ok r.
Proof.
  split; [reflexivity|].
  destruct (module_reference_needs_py_suffix "/" (PurePath.Path "/proj/main.py")
              "utils.helper" (file_map_of scenario_B "/proj") eq_refl)
    as (r & Hr & _).
  exists r. exact Hr.
Defined.


Lemma missing_root_gives_empty_report_witness :
  PurePath.resolve (PurePath.Path "/") (PurePath.Path "/nothere")
  = Ok (PurePath.Path "/nothere")
  /\ main "/" no_fnmatch scenario_B (Args "/nothere" json "") = Ok (JsonDoc [] [] 0).
Proof.
  split; [vm_compute; reflexivity|].
  apply (missing_root_gives_empty_report "/" no_fnmatch scenario_B
           (Args "/nothere" json "") (PurePath.Path "/nothere")).
  - vm_compute; reflexivity.
  - intros es. vm_compute. discriminate.
Defined.


Lemma self_reference_discarded_witness :
  resolve_import "/" (PurePath.Path "/p/a.js") "./a" (file_map_of self_import "/p")
  = Ok (Some "/p/a.js")
  /\ count_in_degree "/" self_import (file_map_of self_import "/p") ["/p/a.js"; "/p/b.js"]
     = count_in_degree "/" no_self_import (file_map_of self_import "/p")
         ["/p/a.js"; "/p/b.js"].
Proof.
  split; [vm_compute; reflexivity|].
  apply (self_reference_discarded "/" self_import no_self_import
           (file_map_of self_import "/p") ["/p/a.js"; "/p/b.js"] "/p/a.js" "./a" [] ["./b"]).
  - vm_compute; reflexivity.
  - vm_compute; reflexivity.
  - vm_compute; reflexivity.
  - intros g Hg Hne.
    apply elem_of_cons in Hg as [-> | Hg]; [done|].
    apply list_elem_of_singleton in Hg as ->. vm_compute; reflexivity.
Defined.

Lemma entry_points_have_source_suffix_witness :
  exists r,
    analyze "/" no_fnmatch scenario_A (Args "/p" json "") = Ok r
    /\ "/p/src/index.js" ∈ likely_entry_points r
    /\ lower (PurePath.suffix (PurePath.Path "/p/src/index.js")) ∈ EXTENSIONS.
Proof.
  eexists. split; [vm_compute; reflexivity|].
  match goal with
  | |- _ ∈ likely_entry_points ?r /\ _ =>
      pose proof (entry_points_have_source_suffix "/" no_fnmatch scenario_A
                    (Args "/p" json "") r "/p/src/index.js") as H
  end.
  destruct H as (_ & H & _); [vm_compute; reflexivity | left |].
  split; [left | exact H].
Defined.

Lemma in_degree_keys_are_the_indexed_files_witness :
  exists r,
    analyze "/" no_fnmatch scenario_A (Args "/p" json "") = Ok r
    /\ PyDict.keys (in_degree r) = PyDict.keys (PyDict.zeros (a_files r)).
Proof.
  eexists. split; [vm_compute; reflexivity|].
  apply (in_degree_keys_are_the_indexed_files "/" no_fnmatch scenario_A
           (Args "/p" json "")).
  vm_compute; reflexivity.
Defined.

(** * Further properties of the script *)

(** ** The lookup structure *)

Lemma map_get_insert_eq (m : gmap string (list string)) k l :
  map_get (<[k := l]> m) k = l.
Proof. unfold map_get. by rewrite lookup_insert_eq. Qed.

Lemma map_get_insert_ne (m : gmap string (list string)) k k' l :
  k ≠ k' -> map_get (<[k := l]> m) k' = map_get m k'.
Proof. intros Hne. unfold map_get. by rewrite lookup_insert_ne. Qed.

Lemma elem_of_map_append k v m k' c :
  c ∈ map_get (map_append k v m) k' <-> c ∈ map_get m k' \/ (k' = k /\ c = v).
Proof.
  unfold map_append. destruct (decide (k = k')) as [<-|Hne].
  - rewrite map_get_insert_eq, elem_of_app, list_elem_of_singleton. intuition.
  - rewrite map_get_insert_ne by done. intuition congruence.
Qed.

Lemma indexed_path_suffix f :
  indexed_path f -> lower (PurePath.suffix (PurePath.Path f)) ∈ EXTENSIONS.
Proof. intros (p & -> & Hwf & Hext). by rewrite PathFacts.Path_str. Qed.

Lemma suffix_of_extension (s : string) : lower s ∈ EXTENSIONS -> s ≠ EmptyString.
Proof.
  intros H ->. apply list_elem_of_In in H. vm_compute in H.
  repeat (destruct H as [H|H]; [discriminate|]). done.
Qed.

Lemma indexed_path_name f : indexed_path f -> PurePath.name (PurePath.Path f) ≠ FULL_PATHS.
Proof.
  intros Hf%indexed_path_suffix Hname. unfold PurePath.suffix in Hf.
  rewrite Hname in Hf. by apply suffix_of_extension in Hf.
Qed.

Section FileMap.

Variable cwd : string.
Variable fnmatchcase : string -> string -> bool.

Lemma index_file_inv root pats dirpath idx f idx' :
  PurePath.well_formed dirpath ->
  index_inv idx ->
  index_file fnmatchcase root pats dirpath idx f = Ok idx' ->
  index_inv idx'.
Proof.
  clear cwd. intros Hdir (Hmap & Hfiles & Hset & Hnd). unfold index_file.
  destruct (str_in _ EXTENSIONS) eqn:Hext; [|by intros [= <-]].
  intros (rel & _ & (ign & _ & H)%bind_Ok)%bind_Ok.
  destruct ign; injection H as <-; [done|].
  pose proof (PathFacts.Path_str _ (PathFacts.joinpath_well_formed dirpath f Hdir)) as Hrt.
  set (path := PurePath.joinpath dirpath f) in *.
  unfold index_inv. cbn [all_files file_map full_path_set].
  split; [|split; [|split]].
  - intros k c. rewrite !elem_of_map_append, elem_of_app, list_elem_of_singleton.
    intros [[Hc | [-> ->]] | [-> ->]].
    + destruct (Hmap k c Hc). auto.
    + rewrite Hrt. auto.
    + rewrite Hrt. auto.
  - intros g. rewrite elem_of_app, list_elem_of_singleton, !elem_of_map_append.
    intros [Hg | ->].
    + destruct (Hfiles g Hg). auto.
    + rewrite Hrt. auto 6.
  - intros g. rewrite elem_of_set_add, elem_of_app, list_elem_of_singleton, Hset. tauto.
  - by apply NoDup_set_add.
Qed.

Lemma index_files_inv fs root pats idx :
  PurePath.well_formed root ->
  index_files fnmatchcase fs root pats = Ok idx ->
  index_inv idx.
Proof.
  clear cwd. intros Hroot. unfold index_files.
  assert (Hwalk : Forall (fun e => PurePath.well_formed e.1) (Fs.walk_path keep_dir fs root)).
  { unfold Fs.walk_path. destruct (Fs.lookup _ _); [by apply walk_well_formed | constructor]. }
  apply (foldM_invariant index_inv).
  - intros i [dirpath names] i' He Hi. unfold index_dir. simpl.
    apply (foldM_invariant index_inv); [|done].
    intros j f j' _ Hj. apply index_file_inv; [|done].
    rewrite Forall_forall in Hwalk. apply (Hwalk _ He).
  - unfold index_inv, empty_index, map_get. simpl. split; [|split; [|split]].
    + intros k c. rewrite lookup_empty. simpl. intros H. by apply elem_of_nil in H.
    + intros f H. by apply elem_of_nil in H.
    + done.
    + constructor.
Qed.

Lemma analyze_index_inv fs a r :
  analyze cwd fnmatchcase fs a = Ok r ->
  exists idx,
    index_inv idx /\ a_files r = all_files idx
    /\ a_file_map r = <[FULL_PATHS := full_path_set idx]> (file_map idx).
Proof.
  intros (idx & Hroot & Hidx & Hfiles & Hmap & _)%analyze_inv.
  exists idx. split; [|done].
  eapply index_files_inv; [|exact Hidx]. by eapply PathFacts.resolve_well_formed.
Qed.

Lemma file_map_candidates fs a r k c :
  analyze cwd fnmatchcase fs a = Ok r ->
  c ∈ map_get (a_file_map r) k -> c ∈ a_files r.
Proof.
  intros (idx & (Hmap & _ & Hset & _) & -> & ->)%analyze_index_inv.
  destruct (decide (FULL_PATHS = k)) as [<-|Hne].
  - rewrite map_get_insert_eq. apply Hset.
  - rewrite map_get_insert_ne by done. intros Hc. by destruct (Hmap k c Hc).
Qed.

(** X1: the lookup structure of a completed run: under the special key it holds
    the indexed files, each once; under any other key it holds indexed files
    whose name or stem is the key; and every indexed file is found under
    its name, and under its stem unless the stem is the special key. *)
Theorem file_map_holds_the_indexed_files fs a r :
  analyze cwd fnmatchcase fs a = Ok r ->
  (forall f, f ∈ map_get (a_file_map r) FULL_PATHS <-> f ∈ a_files r)
  /\ NoDup (map_get (a_file_map r) FULL_PATHS)
  /\ (forall k c, c ∈ map_get (a_file_map r) k -> c ∈ a_files r)
  /\ (forall k c, k ≠ FULL_PATHS -> c ∈ map_get (a_file_map r) k ->
        k = PurePath.name (PurePath.Path c) \/ k = PurePath.stem (PurePath.Path c))
  /\ (forall f, f ∈ a_files r ->
        f ∈ map_get (a_file_map r) (PurePath.name (PurePath.Path f)))
  /\ (forall f, f ∈ a_files r -> PurePath.stem (PurePath.Path f) ≠ FULL_PATHS ->
        f ∈ map_get (a_file_map r) (PurePath.stem (PurePath.Path f))).
Proof.
  intros Hr. pose proof (analyze_files_indexed _ _ _ _ _ Hr) as Hall.
  rewrite Forall_forall in Hall.
  pose proof (fun k c => file_map_candidates fs a r k c Hr) as Hcand.
  destruct (analyze_index_inv _ _ _ Hr) as (idx & (Hmap & Hfiles & Hset & Hnd) & Hf & Hm).
  rewrite Hf in *. rewrite Hm in *. rewrite map_get_insert_eq.
  split; [done|]. split; [done|]. split; [done|]. split; [|split].
  - intros k c Hk. rewrite map_get_insert_ne by done. intros Hc. by destruct (Hmap k c Hc).
  - intros f Hin. rewrite map_get_insert_ne.
    + by destruct (Hfiles f Hin).
    + intros Heq. by apply (indexed_path_name f (Hall f Hin)).
  - intros f Hin Hstem. rewrite map_get_insert_ne by done. by destruct (Hfiles f Hin).
Qed.

Lemma first_module_match_elem py_path candidates c :
  first_module_match py_path candidates = Some c -> c ∈ candidates.
Proof.
  induction candidates as [|x cs IH]; simpl; [done|].
  destruct (endswith x _).
  - intros [= ->]. left.
  - intros H. right. auto.
Qed.

Lemma try_suffixes_elem target full exts c :
  try_suffixes target full exts = Ok (Some c) -> c ∈ full.
Proof.
  induction exts as [|ext exts IH]; simpl; [done|].
  intros (cand & _ & H)%bind_Ok. destruct (str_in _ full) eqn:E; [|auto].
  injection H as <-. unfold str_in in E. by apply bool_decide_eq_true in E.
Qed.

Lemma try_index_files_elem target full exts c :
  try_index_files target full exts = Some c -> c ∈ full.
Proof.
  induction exts as [|ext exts IH]; simpl; [done|].
  destruct (str_in _ full) eqn:E; [|auto].
  intros [= <-]. unfold str_in in E. by apply bool_decide_eq_true in E.
Qed.

(** Whatever a reference resolves to was taken from the lookup structure. *)
Lemma resolve_import_candidate base imp (m : gmap string (list string)) c :
  resolve_import cwd base imp m = Ok (Some c) -> exists k, c ∈ map_get m k.
Proof.
  unfold resolve_import, resolve_import_in. destruct (negb _).
  - intros [= H]. eexists. by eapply first_module_match_elem.
  - destruct (PurePath.resolve _ _) as [target|[]]; [|done].
    destruct (str_in _ _) eqn:E; intros H; exists FULL_PATHS.
    + injection H as <-. unfold str_in in E. by apply bool_decide_eq_true in E.
    + apply bind_Ok in H as (o & Ho & H). destruct o as [c'|].
      * injection H as ->. by eapply try_suffixes_elem.
      * apply (try_index_files_elem target _ EXTENSIONS). congruence.
Qed.

(** X2: a reference of a completed run never resolves to anything but an
    indexed file: the result is a non-empty string and a key of the
    in-degree table, so the test before the increment always passes. *)
Theorem resolved_reference_is_indexed fs a r base imp c :
  analyze cwd fnmatchcase fs a = Ok r ->
  resolve_import cwd base imp (a_file_map r) = Ok (Some c) ->
  c ∈ a_files r
  /\ c ≠ EmptyString
  /\ PyDict.contains c (in_degree r) = true.
Proof.
  intros Hr (k & Hc)%resolve_import_candidate.
  pose proof (file_map_candidates fs a r k c Hr Hc) as Hin.
  split; [done|]. split.
  - pose proof (analyze_files_indexed _ _ _ _ _ Hr) as Hall.
    rewrite Forall_forall in Hall. destruct (Hall c Hin) as (p & -> & [Habs _] & _).
    by apply PathFacts.str_nonempty.
  - apply PyDictFacts.contains_keys. by apply (in_degree_keys cwd fnmatchcase fs a r c Hr).
Qed.

End FileMap.

(** ** Extraction from JavaScript text *)

Module JsFacts.
Import Re.

(** Away from position 0 the pattern needs [;] or [}] to start a match. *)
Lemma run_statement_start r s k :
  match s with
  | String c _ => c ≠ ";"%char /\ c ≠ "}"%char
  | EmptyString => True
  end ->
  run false (Cat (Alts [Bol; Chr ";"; Chr "}"]) r) (MState false s []) k = None.
Proof.
  intros Hs. cbn [run Alts at_start]. unfold step. cbn [rest].
  destruct s as [|c s]; [done|]. destruct Hs as [H1 H2].
  unfold chr_eq. by rewrite !bool_decide_eq_false_2.
Qed.

Lemma REGEX_JS_IMPORT_inside s :
  match s with
  | String c _ => c ≠ ";"%char /\ c ≠ "}"%char
  | EmptyString => True
  end ->
  run false REGEX_JS_IMPORT (MState false s []) Some = None.
Proof. intros Hs. unfold REGEX_JS_IMPORT, Seq. cbn [foldr]. by apply run_statement_start. Qed.

Lemma contains_cons c a s :
  contains c (String a s) = false -> a ≠ c /\ contains c s = false.
Proof.
  unfold contains. rewrite !bool_decide_eq_false. simpl.
  rewrite not_elem_of_cons. intuition.
Qed.

Lemma finditer_from_inside s skip :
  contains ";" s = false -> contains "}" s = false ->
  finditer_from REGEX_JS_IMPORT false skip s = [].
Proof.
  revert skip. induction s as [|c s IH]; intros skip H1 H2.
  - destruct skip; cbn [finditer_from]; [|done].
    by rewrite REGEX_JS_IMPORT_inside.
  - apply contains_cons in H1 as [Hc1 H1]. apply contains_cons in H2 as [Hc2 H2].
    destruct skip; cbn [finditer_from]; [|by apply IH].
    rewrite REGEX_JS_IMPORT_inside by done. by apply IH.
Qed.

End JsFacts.

(** X3: in a text without [;] and [}] the pattern can match at position 0 only
    (it is compiled without [re.MULTILINE]): the references found are that
    of a statement at the very start of the text, or none. *)
Theorem js_reference_found_at_text_start_only content :
  contains ";" content = false -> contains "}" content = false ->
  scan_js content
  = match Re.match_ false REGEX_JS_IMPORT content with
    | Some m => [default EmptyString (Re.group 1 (Re.groups m))]
    | None => []
    end.
Proof.
  intros H1 H2. unfold scan_js, Re.finditer, Re.match_.
  destruct content as [|c s]; cbn [Re.finditer_from].
  - by destruct (Re.run _ _ _ _).
  - apply JsFacts.contains_cons in H1 as [_ H1].
    apply JsFacts.contains_cons in H2 as [_ H2].
    destruct (Re.run _ _ _ _); by rewrite JsFacts.finditer_from_inside.
Qed.

(** ** When a run completes *)

Lemma result_Ok_or_Raise {A : Type} (m : result A) :
  (exists a, m = Ok a) <-> m ≠ Raise ValueError.
Proof.
  destruct m as [a|[]]; split; try done; eauto.
  intros [a [=]].
Qed.

Lemma foldM_Ok_all {A B : Type} (f : B -> A -> result B) (l : list A) (b : B) :
  (forall b x, x ∈ l -> exists b', f b x = Ok b') -> exists b', foldM f l b = Ok b'.
Proof.
  revert b. induction l as [|x l IH]; intros b H; simpl; [eauto|].
  destruct (H b x) as [b1 ->]; [left|]. simpl.
  apply IH. intros b' y Hy. apply H. by right.
Qed.

Lemma foldM_Ok_inv {A B : Type} (f : B -> A -> result B) (l : list A) (b b' : B) x :
  foldM f l b = Ok b' -> x ∈ l -> exists b1 b2, f b1 x = Ok b2.
Proof.
  revert b. induction l as [|y l IH]; intros b H Hx; [by apply elem_of_nil in Hx|].
  simpl in H. apply bind_Ok in H as (b1 & H1 & H2).
  apply elem_of_cons in Hx as [-> | Hx]; eauto.
Qed.

Lemma mapM_Ok_all {A B : Type} (f : A -> result B) (l : list A) :
  (forall x, x ∈ l -> exists y, f x = Ok y) -> exists l', mapM f l = Ok l'.
Proof.
  induction l as [|x l IH]; intros H; simpl; [eauto|].
  destruct (H x) as [y ->]; [left|]. simpl.
  destruct IH as [ys ->]; [intros z Hz; apply H; by right|]. simpl. eauto.
Qed.

Module PartFacts.
Import PurePath.

Lemma joinpath_parts p s :
  Forall (fun x => Is_true (is_part x)) (parts p) ->
  Forall (fun x => Is_true (is_part x)) (parts (joinpath p s)).
Proof.
  intros Hp. unfold joinpath. destruct (startswith s "/"); simpl.
  - apply PathFacts.parse_parts_are_parts.
  - apply Forall_app. split; [done | apply PathFacts.parse_parts_are_parts].
Qed.

Lemma resolve_parts c p t :
  Forall (fun x => Is_true (is_part x)) (parts c) ->
  Forall (fun x => Is_true (is_part x)) (parts p) ->
  resolve c p = Ok t -> well_formed t.
Proof.
  intros Hc Hp. unfold resolve. case_bool_decide; [done|]. intros [= <-].
  split; [done|]. simpl. apply PathFacts.normalize_Forall; [constructor|].
  destruct (is_abs p); [done|]. by apply Forall_app.
Qed.

(** The only well-formed path without a name is the root. *)
Lemma well_formed_no_name t :
  well_formed t -> name t = EmptyString -> t = Path_ true [].
Proof.
  destruct t as [abs ps]. intros [Habs Hps]. simpl in *. subst abs.
  unfold name. simpl. destruct ps as [|x ps _] using rev_ind; [done|].
  rewrite List.last_last. intros ->.
  apply Forall_app in Hps as [_ Hx]. apply Forall_cons in Hx as [Hx _].
  by apply PathFacts.is_part_spec in Hx as [? _].
Qed.

Lemma strip_prefix_app pre l : strip_prefix pre (pre ++ l) = Some l.
Proof.
  induction pre as [|x pre IH]; simpl; [by destruct l|].
  by rewrite bool_decide_eq_true_2.
Qed.

Lemma strip_prefix_Some pre l l' : strip_prefix pre l = Some l' -> l = pre ++ l'.
Proof.
  revert l. induction pre as [|x pre IH]; intros l; simpl.
  - destruct l; by intros [= <-].
  - destruct l as [|y l]; [done|]. case_bool_decide; [|done].
    subst. intros H. by rewrite (IH _ H).
Qed.

End PartFacts.

Lemma root_not_indexed : ~ indexed_path "/".
Proof.
  intros H%indexed_path_suffix. by apply suffix_of_extension in H.
Qed.

Section Completion.

Variable cwd : string.
Variable fnmatchcase : string -> string -> bool.

Lemma try_suffixes_no_name target full exts :
  PurePath.name target = EmptyString -> exts ≠ [] ->
  try_suffixes target full exts = Raise ValueError.
Proof.
  intros Hname Hne. destruct exts as [|ext exts]; [done|]. simpl.
  unfold PurePath.with_suffix. by rewrite bool_decide_eq_true_2.
Qed.

(** The one way a resolution fails: the reference is relative and its
    target is the root of the file system, for which [with_suffix] raises. *)
Lemma resolve_import_raises f imp (m : gmap string (list string)) :
  (forall c, c ∈ map_get m FULL_PATHS -> indexed_path c) ->
  resolve_import cwd (PurePath.Path f) imp m = Raise ValueError
  <-> targets_file_system_root cwd f imp.
Proof.
  intros Hm. unfold targets_file_system_root, resolve_import, resolve_import_in.
  destruct (startswith imp ".") eqn:Hdot; cbn [negb].
  2: { split; [done | by intros [[=] _]]. }
  destruct (PurePath.resolve _ _) as [target|[]] eqn:Hres.
  2: { split; [done | by intros [_ [=]]]. }
  assert (Hwf : PurePath.well_formed target).
  { eapply PartFacts.resolve_parts; [| |exact Hres].
    - apply PathFacts.parse_parts_are_parts.
    - apply PartFacts.joinpath_parts. simpl. apply PathFacts.Forall_removelast.
      apply PathFacts.parse_parts_are_parts. }
  destruct (decide (PurePath.name target = EmptyString)) as [Hname|Hname].
  - pose proof (PartFacts.well_formed_no_name _ Hwf Hname) as ->.
    assert (Hroot : str_in (PurePath.str (PurePath.Path_ true [])) (map_get m FULL_PATHS) = false).
    { unfold str_in. apply bool_decide_eq_false_2. intros Hin.
      by apply root_not_indexed, Hm. }
    rewrite Hroot. rewrite try_suffixes_no_name by done. done.
  - destruct (str_in _ _).
    + split; [done|]. intros [_ [= ->]]. done.
    + rewrite (try_suffixes_spec target _ EXTENSIONS Hname).
      unfold mbind, result_bind. split.
      * by destruct (head _).
      * intros [_ [= ->]]. done.
Qed.

Lemma count_import_Ok (m : gmap string (list string)) consumer table imp :
  (exists table', count_import cwd m consumer table imp = Ok table')
  <-> exists r, resolve_import cwd (PurePath.Path consumer) imp m = Ok r.
Proof.
  unfold count_import. destruct (resolve_import _ _ _ _) as [r|e]; simpl.
  - split; [eauto|]. intros _. destruct r as [r|]; [|eauto].
    destruct (negb _ && _); [|eauto]. destruct (negb _); eauto.
  - split; intros [? [=]].
Qed.

Lemma graph_import_Ok (m : gmap string (list string)) table f graph imp :
  (exists graph', graph_import cwd m table f graph imp = Ok graph')
  <-> exists r, resolve_import cwd (PurePath.Path f) imp m = Ok r.
Proof.
  unfold graph_import. destruct (resolve_import _ _ _ _) as [r|e]; simpl.
  - split; [eauto|]. intros _. destruct r as [r|]; [|eauto].
    destruct (negb _ && _); [|eauto]. destruct (negb _); eauto.
  - split; intros [? [=]].
Qed.

(** Each loop over the references completes exactly when every reference
    of every file resolves without an exception. *)
Lemma count_in_degree_Ok fs (m : gmap string (list string)) files :
  (exists table, count_in_degree cwd fs m files = Ok table)
  <-> forall f imp, f ∈ files -> imp ∈ scan_imports fs (PurePath.Path f) ->
        exists r, resolve_import cwd (PurePath.Path f) imp m = Ok r.
Proof.
  clear fnmatchcase. unfold count_in_degree. split.
  - intros [table H] f imp Hf Himp.
    destruct (foldM_Ok_inv _ _ _ _ f H Hf) as (t1 & t2 & H1).
    unfold count_file in H1.
    destruct (foldM_Ok_inv _ _ _ _ imp H1 Himp) as (t3 & t4 & H2).
    apply (proj1 (count_import_Ok m f t3 imp)). eauto.
  - intros H. apply foldM_Ok_all. intros t f Hf. unfold count_file.
    apply foldM_Ok_all. intros t' imp Himp.
    apply (proj2 (count_import_Ok m f t' imp)). by apply H.
Qed.

Lemma build_graph_Ok fs (m : gmap string (list string)) files :
  (exists graph, build_graph cwd fs m files = Ok graph)
  <-> forall f imp, f ∈ files -> imp ∈ scan_imports fs (PurePath.Path f) ->
        exists r, resolve_import cwd (PurePath.Path f) imp m = Ok r.
Proof.
  clear fnmatchcase. unfold build_graph. split.
  - intros [graph H] f imp Hf Himp.
    destruct (foldM_Ok_inv _ _ _ _ f H Hf) as (t1 & t2 & H1).
    destruct (foldM_Ok_inv _ _ _ _ imp H1 Himp) as (t3 & t4 & H2).
    apply (proj1 (graph_import_Ok m (PyDict.zeros files) f t3 imp)). eauto.
  - intros H. apply foldM_Ok_all. intros t f Hf.
    apply foldM_Ok_all. intros t' imp Himp.
    apply (proj2 (graph_import_Ok m (PyDict.zeros files) f t' imp)). by apply H.
Qed.

(** X4: the first loop over the files, whose graph the script never reads,
    does not change the outcome: it raises exactly when the second loop
    raises, so running it first gives what the second loop gives alone. *)
Theorem first_pass_changes_nothing fs (m : gmap string (list string)) files :
  (build_graph cwd fs m files ≫= fun _ => count_in_degree cwd fs m files)
  = count_in_degree cwd fs m files.
Proof.
  clear fnmatchcase.
  destruct (build_graph cwd fs m files) as [graph|[]] eqn:Hg; [done|]. simpl.
  destruct (count_in_degree cwd fs m files) as [table|[]] eqn:Hc; [|done].
  assert (Hok : exists graph, build_graph cwd fs m files = Ok graph).
  { apply build_graph_Ok, count_in_degree_Ok. eauto. }
  destruct Hok as [graph Hok]. congruence.
Qed.

Lemma index_file_relative root pats dirpath idx f idx' :
  PurePath.well_formed dirpath ->
  Forall (fun g => exists rel, PurePath.relative_to (PurePath.Path g) root = Ok rel)
    (all_files idx) ->
  index_file fnmatchcase root pats dirpath idx f = Ok idx' ->
  Forall (fun g => exists rel, PurePath.relative_to (PurePath.Path g) root = Ok rel)
    (all_files idx').
Proof.
  intros Hdir Hidx. unfold index_file.
  destruct (str_in _ EXTENSIONS); [|by intros [= <-]].
  intros (rel & Hrel & (ign & _ & H)%bind_Ok)%bind_Ok.
  destruct ign; injection H as <-; [done|]. simpl.
  apply Forall_app. split; [done|]. constructor; [|constructor].
  rewrite PathFacts.Path_str by (by apply PathFacts.joinpath_well_formed). eauto.
Qed.

(** Every indexed file passed [relative_to(root)] when it was indexed. *)
Lemma index_files_relative fs root pats idx :
  PurePath.well_formed root ->
  index_files fnmatchcase fs root pats = Ok idx ->
  Forall (fun g => exists rel, PurePath.relative_to (PurePath.Path g) root = Ok rel)
    (all_files idx).
Proof.
  intros Hroot. unfold index_files.
  assert (Hwalk : Forall (fun e => PurePath.well_formed e.1) (Fs.walk_path keep_dir fs root)).
  { unfold Fs.walk_path. destruct (Fs.lookup _ _); [by apply walk_well_formed | constructor]. }
  apply (foldM_invariant
           (fun i => Forall (fun g => exists rel,
                       PurePath.relative_to (PurePath.Path g) root = Ok rel) (all_files i)));
    [|constructor].
  intros i [dirpath names] i' He Hi. unfold index_dir. simpl.
  apply (foldM_invariant
           (fun i => Forall (fun g => exists rel,
                       PurePath.relative_to (PurePath.Path g) root = Ok rel) (all_files i)));
    [|done].
  intros j f j' _ Hj. apply index_file_relative; [|done].
  rewrite Forall_forall in Hwalk. apply (Hwalk _ He).
Qed.

(** X5: once the root is resolved and the index is built, the run completes
    exactly when no indexed file holds a relative reference whose target is
    the root of the file system; otherwise [with_suffix] raises an uncaught
    [ValueError]. *)
Theorem run_completes_unless_reference_targets_root fs a root idx :
  PurePath.resolve (PurePath.Path cwd) (PurePath.Path (directory a)) = Ok root ->
  index_files fnmatchcase fs root (ignore_patterns a) = Ok idx ->
  (exists out, main cwd fnmatchcase fs a = Ok out)
  <-> (forall f imp, f ∈ all_files idx -> imp ∈ scan_imports fs (PurePath.Path f) ->
         ~ targets_file_system_root cwd f imp).
Proof.
  intros Hroot Hidx.
  pose proof (PathFacts.resolve_well_formed _ _ _ Hroot) as Hwf.
  pose proof (index_files_inv fnmatchcase fs root _ idx Hwf Hidx) as (_ & _ & Hset & _).
  pose proof (index_files_indexed fnmatchcase fs root _ idx Hwf Hidx) as Hall.
  pose proof (index_files_relative fs root _ idx Hwf Hidx) as Hrel.
  rewrite Forall_forall in Hall, Hrel.
  set (m := <[FULL_PATHS := full_path_set idx]> (file_map idx)).
  assert (Hm : forall c, c ∈ map_get m FULL_PATHS -> indexed_path c).
  { intros c. unfold m. rewrite map_get_insert_eq, Hset. apply Hall. }
  assert (Hres : forall f imp,
             (exists r, resolve_import cwd (PurePath.Path f) imp m = Ok r)
             <-> ~ targets_file_system_root cwd f imp).
  { intros f imp. rewrite result_Ok_or_Raise. by rewrite (resolve_import_raises f imp m Hm). }
  split.
  - intros [out Hout] f imp Hf Himp. apply Hres.
    unfold main in Hout. apply bind_Ok in Hout as (r & Hr & _).
    destruct (analyze_inv _ _ _ _ _ Hr) as (idx' & Hroot' & Hidx' & Hfiles & Hmap & Hc & _).
    rewrite Hroot in Hroot'. injection Hroot' as Hroot'. rewrite <- Hroot' in Hidx'.
    rewrite Hidx in Hidx'. injection Hidx' as <-.
    rewrite Hmap, Hfiles in Hc. fold m in Hc.
    apply (proj1 (count_in_degree_Ok fs m (all_files idx))); eauto.
  - intros Hsafe.
    assert (Hall_ok : forall f imp, f ∈ all_files idx ->
              imp ∈ scan_imports fs (PurePath.Path f) ->
              exists r, resolve_import cwd (PurePath.Path f) imp m = Ok r).
    { intros f imp Hf Himp. apply Hres. by apply Hsafe. }
    destruct (proj2 (build_graph_Ok fs m (all_files idx)) Hall_ok) as [graph Hg].
    destruct (proj2 (count_in_degree_Ok fs m (all_files idx)) Hall_ok) as [table Ht].
    assert (Hkeys : forall f, f ∈ zero_degree table -> f ∈ all_files idx).
    { intros f Hf%PyDictFacts.zero_degree_keys.
      rewrite (count_in_degree_keys _ _ _ _ _ Ht) in Hf.
      destruct (PyDictFacts.zeros_spec (all_files idx)) as (_ & Hin & _). by apply Hin. }
    assert (Hout : forall l, (forall f, f ∈ l -> f ∈ all_files idx) ->
              exists l', mapM (relative_str root) l = Ok l').
    { intros l Hl. apply mapM_Ok_all. intros f Hf.
      destruct (Hrel f (Hl f Hf)) as [rel Hr]. unfold relative_str. rewrite Hr.
      simpl. eauto. }
    destruct (Hout (filter (fun f => f ∉ get_entry_points (all_files idx)) (zero_degree table)))
      as [po Hpo].
    { intros f [_ Hf]%list_elem_of_filter. by apply Hkeys. }
    destruct (Hout (filter (fun f => f ∈ get_entry_points (all_files idx)) (zero_degree table)))
      as [pe Hpe].
    { intros f [_ Hf]%list_elem_of_filter. by apply Hkeys. }
    eexists. unfold main, analyze. rewrite Hroot. cbn [mbind result_bind].
    rewrite Hidx. cbn [mbind result_bind]. fold m. rewrite Hg. cbn [mbind result_bind].
    rewrite Ht. cbn [mbind result_bind]. rewrite Hpo. cbn [mbind result_bind].
    rewrite Hpe. cbn [mbind result_bind]. reflexivity.
Qed.

End Completion.

(** ** The walk of a tree with proper names *)

Module WalkFacts.
Import PurePath.

Lemma startswith_part d : Is_true (is_part d) -> startswith d "/" = false.
Proof.
  intros (_ & _ & Hsl)%PathFacts.is_part_spec. destruct d as [|c d]; [done|].
  simpl in *. apply bool_decide_eq_false_2. intros ->. apply Hsl. left.
Qed.

Lemma parse_parts_part d : Is_true (is_part d) -> parse_parts d = [d].
Proof.
  intros Hd. pose proof Hd as (_ & _ & Hsl)%PathFacts.is_part_spec.
  unfold parse_parts. rewrite PathFacts.split_one by done.
  apply PathFacts.filter_keep_parts. by constructor.
Qed.

(** Joining a directory and one of its entries appends the name. *)
Lemma joinpath_part p d :
  Is_true (is_part d) -> joinpath p d = Path_ (is_abs p) (parts p ++ [d]).
Proof.
  intros Hd. unfold joinpath. by rewrite startswith_part, parse_parts_part.
Qed.

Lemma filenames_parts es :
  Fs.well_named (Fs.Dir es) = true ->
  Forall (fun x => Is_true (is_part x)) (Fs.filenames es).
Proof.
  unfold Fs.filenames. induction es as [|[d c] es IH]; [constructor|].
  cbn [Fs.well_named]. intros [[Hd Hc]%andb_prop Hes]%andb_prop. cbn [omap list_omap].
  destruct c; [|by apply IH].
  constructor; [by apply Is_true_true | by apply IH].
Qed.

Lemma lookup_well_named ps :
  forall n n', Fs.well_named n = true -> Fs.lookup n ps = Some n' -> Fs.well_named n' = true.
Proof.
  induction ps as [|p ps IH]; intros n n' Hn; simpl; [by intros [= <-]|].
  destruct n as [c|es]; [done|].
  induction es as [|[d c] es IHes]; [done|].
  cbn [Fs.well_named] in Hn. apply andb_prop in Hn as [[Hd Hc]%andb_prop Hes].
  case_bool_decide.
  - by apply IH.
  - by apply IHes.
Qed.

(** Every directory the walk visits lies under the top, below directories
    the caller kept, and its file names are proper names. *)
Lemma walk_under keep :
  forall n top, Fs.well_named n = true ->
    Forall (fun e => exists ds,
              e.1 = Path_ (is_abs top) (parts top ++ ds)
              /\ Forall (fun d => keep d = true /\ Is_true (is_part d)) ds
              /\ Forall (fun x => Is_true (is_part x)) e.2)
      (Fs.walk keep top n).
Proof.
  fix IH 1. intros n top Hn. destruct n as [c|es]; cbn [Fs.walk]; [constructor|].
  constructor.
  - exists []. rewrite app_nil_r. cbn [fst snd]. split; [by destruct top|].
    split; [constructor | by apply filenames_parts].
  - induction es as [|[d c] es IHes]; [constructor|].
    cbn [Fs.well_named] in Hn. apply andb_prop in Hn as [[Hd Hc]%andb_prop Hes].
    apply Is_true_true in Hd.
    pose proof (IH c (joinpath top d) Hc) as Hsub.
    destruct c as [c|es']; [by apply IHes|].
    destruct (keep d) eqn:Hk; [|by apply IHes].
    apply Forall_app. split; [|by apply IHes].
    eapply Forall_impl; [exact Hsub|].
    intros e (ds & He & Hds & Hnames). exists (d :: ds).
    rewrite He, joinpath_part by done. cbn [is_abs parts].
    rewrite <- app_assoc. split; [done|]. split; [|done].
    constructor; [|done]. by split.
Qed.

Lemma walk_path_under keep fs root :
  Fs.well_named fs = true ->
  Forall (fun e => exists ds,
            e.1 = Path_ (is_abs root) (parts root ++ ds)
            /\ Forall (fun d => keep d = true /\ Is_true (is_part d)) ds
            /\ Forall (fun x => Is_true (is_part x)) e.2)
    (Fs.walk_path keep fs root).
Proof.
  intros Hfs. unfold Fs.walk_path.
  destruct (Fs.lookup fs (parts root)) as [n|] eqn:E; [|constructor].
  apply walk_under. by eapply lookup_well_named.
Qed.

Lemma name_snoc abs ps nm : name (Path_ abs (ps ++ [nm])) = nm.
Proof. unfold name. simpl. apply List.last_last. Qed.

Lemma relative_to_under abs root_parts l :
  relative_to (Path_ abs (root_parts ++ l)) (Path_ abs root_parts) = Ok (Path_ false l).
Proof.
  unfold relative_to. cbn [is_abs parts].
  rewrite bool_decide_eq_true_2 by done. by rewrite PartFacts.strip_prefix_app.
Qed.

End WalkFacts.

Section Indexing.

Variable fnmatchcase : string -> string -> bool.

Lemma match_acceptable p pattern :
  pattern ≠ EmptyString -> acceptable_pattern pattern = true ->
  exists b, PurePath.match_ fnmatchcase p pattern = Ok b.
Proof.
  intros Hne. unfold acceptable_pattern.
  rewrite (bool_decide_eq_false_2 (pattern = EmptyString)) by done. cbn [orb].
  intros H. unfold PurePath.match_, PurePath.Path. cbn [PurePath.is_abs PurePath.parts].
  destruct (startswith pattern "/") eqn:Habs; cbn [negb andb].
  - destruct (negb (PurePath.is_abs p)); eauto.
  - rewrite orb_false_r in H. apply negb_true_iff in H. rewrite H.
    destruct (Nat.ltb _ _); eauto.
Qed.

Lemma is_ignored_acceptable p pats :
  Forall (fun pattern => acceptable_pattern pattern = true) pats ->
  exists b, is_ignored fnmatchcase p pats = Ok b.
Proof.
  induction 1 as [|pattern pats Hp _ IH]; simpl; [eauto|].
  case_bool_decide as Hne; [done|].
  destruct (match_acceptable p pattern Hne Hp) as [b ->]. simpl.
  destruct b; eauto.
Qed.

(** X6: in a tree with proper names, with patterns [PurePath.match] accepts,
    the indexing loop completes: [relative_to] finds every visited file
    under the root. *)
Theorem indexing_completes fs root pats :
  Fs.well_named fs = true ->
  Forall (fun pattern => acceptable_pattern pattern = true) pats ->
  exists idx, index_files fnmatchcase fs root pats = Ok idx.
Proof.
  intros Hfs Hpats. unfold index_files.
  pose proof (WalkFacts.walk_path_under keep_dir fs root Hfs) as Hwalk.
  rewrite Forall_forall in Hwalk.
  apply foldM_Ok_all. intros idx [dirpath names] He.
  destruct (Hwalk _ He) as (ds & Hdir & _ & Hnames). cbn [fst snd] in *.
  unfold index_dir. cbn [fst snd]. apply foldM_Ok_all. intros idx' f Hf.
  rewrite Forall_forall in Hnames. specialize (Hnames f Hf).
  unfold index_file. destruct (str_in _ EXTENSIONS); [|eauto].
  rewrite Hdir, WalkFacts.joinpath_part by done. cbn [PurePath.is_abs PurePath.parts].
  rewrite <- app_assoc.
  assert (Hrel : PurePath.relative_to
            (PurePath.Path_ (PurePath.is_abs root) (PurePath.parts root ++ ds ++ [f])) root
          = Ok (PurePath.Path_ false (ds ++ [f]))).
  { destruct root as [abs ps]. apply WalkFacts.relative_to_under. }
  rewrite Hrel. cbn [mbind result_bind].
  destruct (is_ignored_acceptable (PurePath.Path_ false (ds ++ [f])) pats Hpats) as [b ->].
  cbn [mbind result_bind]. destruct b; eauto.
Qed.

(** X7: a pattern [PurePath.match] refuses ends the run as soon as it is tried:
    it raises when the patterns before it are accepted and match nothing. *)
Theorem unacceptable_pattern_raises p before pattern after :
  acceptable_pattern pattern = false ->
  is_ignored fnmatchcase p before = Ok false ->
  is_ignored fnmatchcase p (before ++ pattern :: after) = Raise ValueError.
Proof.
  intros Hbad. induction before as [|q before IH]; simpl.
  - intros _. unfold acceptable_pattern in Hbad.
    apply orb_false_elim in Hbad as [[Hne Hparts]%orb_false_elim Habs].
    rewrite Hne. unfold PurePath.match_, PurePath.Path. cbn [PurePath.is_abs PurePath.parts].
    rewrite Habs. apply negb_false_iff in Hparts. by rewrite Hparts.
  - case_bool_decide; [done|].
    destruct (PurePath.match_ fnmatchcase p q) as [[]|]; simpl; [done | exact IH | done].
Qed.

Lemma index_file_under root pats dirpath ds idx f idx' :
  dirpath = PurePath.Path_ true (PurePath.parts root ++ ds) ->
  Forall (fun d => keep_dir d = true /\ Is_true (PurePath.is_part d)) ds ->
  Is_true (PurePath.is_part f) ->
  Forall (fun g => exists ds nm,
            g = PurePath.str (PurePath.Path_ true (PurePath.parts root ++ ds ++ [nm]))
            /\ Forall (fun d => keep_dir d = true /\ Is_true (PurePath.is_part d)) ds
            /\ Is_true (PurePath.is_part nm)
            /\ lower (PurePath.name_suffix nm) ∈ EXTENSIONS) (all_files idx) ->
  index_file fnmatchcase root pats dirpath idx f = Ok idx' ->
  Forall (fun g => exists ds nm,
            g = PurePath.str (PurePath.Path_ true (PurePath.parts root ++ ds ++ [nm]))
            /\ Forall (fun d => keep_dir d = true /\ Is_true (PurePath.is_part d)) ds
            /\ Is_true (PurePath.is_part nm)
            /\ lower (PurePath.name_suffix nm) ∈ EXTENSIONS) (all_files idx').
Proof.
  intros -> Hds Hf Hidx. unfold index_file.
  rewrite WalkFacts.joinpath_part by done. cbn [PurePath.is_abs PurePath.parts].
  unfold PurePath.suffix. rewrite WalkFacts.name_snoc.
  destruct (str_in _ EXTENSIONS) eqn:Hext; [|by intros [= <-]].
  intros (rel & _ & (ign & _ & H)%bind_Ok)%bind_Ok.
  destruct ign; injection H as <-; [done|]. cbn [all_files].
  apply Forall_app. split; [done|]. constructor; [|constructor].
  exists ds, f. rewrite <- app_assoc. split; [done|]. split; [done|]. split; [done|].
  unfold str_in in Hext. by apply bool_decide_eq_true in Hext.
Qed.

Lemma index_files_under fs root pats idx :
  Fs.well_named fs = true ->
  PurePath.is_abs root = true ->
  index_files fnmatchcase fs root pats = Ok idx ->
  Forall (fun g => exists ds nm,
            g = PurePath.str (PurePath.Path_ true (PurePath.parts root ++ ds ++ [nm]))
            /\ Forall (fun d => keep_dir d = true /\ Is_true (PurePath.is_part d)) ds
            /\ Is_true (PurePath.is_part nm)
            /\ lower (PurePath.name_suffix nm) ∈ EXTENSIONS) (all_files idx).
Proof.
  intros Hfs Habs. unfold index_files.
  pose proof (WalkFacts.walk_path_under keep_dir fs root Hfs) as Hwalk.
  rewrite Forall_forall in Hwalk. rewrite Habs in Hwalk.
  apply (foldM_invariant
           (fun i => Forall (fun g => exists ds nm,
              g = PurePath.str (PurePath.Path_ true (PurePath.parts root ++ ds ++ [nm]))
              /\ Forall (fun d => keep_dir d = true /\ Is_true (PurePath.is_part d)) ds
              /\ Is_true (PurePath.is_part nm)
              /\ lower (PurePath.name_suffix nm) ∈ EXTENSIONS) (all_files i)));
    [|constructor].
  intros i [dirpath names] i' He Hi. unfold index_dir. cbn [fst snd].
  destruct (Hwalk _ He) as (ds & Hdir & Hds & Hnames). cbn [fst snd] in *.
  rewrite Forall_forall in Hnames.
  apply (foldM_invariant
           (fun i => Forall (fun g => exists ds nm,
              g = PurePath.str (PurePath.Path_ true (PurePath.parts root ++ ds ++ [nm]))
              /\ Forall (fun d => keep_dir d = true /\ Is_true (PurePath.is_part d)) ds
              /\ Is_true (PurePath.is_part nm)
              /\ lower (PurePath.name_suffix nm) ∈ EXTENSIONS) (all_files i)));
    [|done].
  intros j f j' Hf Hj. by apply (index_file_under root pats dirpath ds); [| |apply Hnames|].
Qed.

End Indexing.

Lemma keep_dir_spec d :
  keep_dir d = true <-> (d ∉ SKIP_DIRS) /\ startswith d "." = false.
Proof.
  unfold keep_dir, str_in. rewrite andb_true_iff, !negb_true_iff, bool_decide_eq_false.
  done.
Qed.

Section Reported.

Variable cwd : string.
Variable fnmatchcase : string -> string -> bool.

(** X8: in a tree with proper names every indexed file is the root followed by
    directory names and a file name: no directory on the way from the root
    is in [SKIP_DIRS] or starts with a dot, and the file name has, in lower
    case, a recognized suffix.  Nothing is required of the root itself, nor
    of the first character of the file name. *)
Theorem indexed_files_avoid_skipped_directories fs a r f :
  Fs.well_named fs = true ->
  analyze cwd fnmatchcase fs a = Ok r ->
  f ∈ a_files r ->
  exists ds nm,
    f = PurePath.str (PurePath.Path_ true (PurePath.parts (a_root r) ++ ds ++ [nm]))
    /\ Forall (fun d => (d ∉ SKIP_DIRS) /\ startswith d "." = false) ds
    /\ lower (PurePath.name_suffix nm) ∈ EXTENSIONS.
Proof.
  intros Hfs Hr Hf.
  destruct (analyze_inv _ _ _ _ _ Hr) as (idx & Hroot & Hidx & Hfiles & _).
  destruct (PathFacts.resolve_well_formed _ _ _ Hroot) as [Habs _].
  pose proof (index_files_under fnmatchcase fs _ _ idx Hfs Habs Hidx) as Hall.
  rewrite Forall_forall in Hall. rewrite Hfiles in Hf.
  destruct (Hall f Hf) as (ds & nm & -> & Hds & _ & Hext).
  exists ds, nm. split; [done|]. split; [|done].
  eapply Forall_impl; [exact Hds|]. intros d [Hk _]. by apply keep_dir_spec.
Qed.

Lemma startswith_join x l :
  Is_true (PurePath.is_part x) -> startswith (join "/" (x :: l)) "/" = false.
Proof.
  intros Hx. pose proof (WalkFacts.startswith_part x Hx) as Hs.
  pose proof Hx as (Hne & _)%PathFacts.is_part_spec.
  destruct x as [|c x]; [done|]. by destruct l.
Qed.

(** Joining the root and the relative path of an indexed file gives the
    file back. *)
Lemma relative_str_round_trip root f out :
  indexed_path f ->
  relative_str root f = Ok out ->
  PurePath.str (PurePath.joinpath root out) = f.
Proof.
  clear cwd fnmatchcase.
  intros (p & -> & Hwf & _).
  unfold relative_str. rewrite PathFacts.Path_str by done.
  intros (rel & Hrel & ->)%fmap_Ok. f_equal.
  unfold PurePath.relative_to in Hrel. case_bool_decide as Habs; [|done].
  destruct (PurePath.strip_prefix _ _) as [l|] eqn:Hl; [|done]. injection Hrel as <-.
  apply PartFacts.strip_prefix_Some in Hl.
  destruct Hwf as [_ Hparts]. rewrite Hl in Hparts.
  apply Forall_app in Hparts as [_ Hparts].
  destruct p as [abs ps]. destruct root as [rabs rps]. cbn [PurePath.is_abs PurePath.parts] in *.
  subst. unfold PurePath.str. cbn [PurePath.is_abs PurePath.parts].
  destruct l as [|x l].
  - unfold PurePath.joinpath. simpl. by rewrite !app_nil_r.
  - unfold PurePath.joinpath. apply Forall_cons in Hparts as Hx. destruct Hx as [Hx _].
    rewrite startswith_join by done. cbn [PurePath.is_abs PurePath.parts].
    f_equal. f_equal. unfold PurePath.parse_parts.
    rewrite PathFacts.split_join; [by apply PathFacts.filter_keep_parts | | done].
    eapply Forall_impl; [exact Hparts|].
    intros y Hy. by apply PathFacts.is_part_spec in Hy as (_ & _ & ?).
Qed.

Lemma mapM_Forall2 {A B : Type} (Q : A -> Prop) (R : A -> B -> Prop)
    (f : A -> result B) (l : list A) (l' : list B) :
  (forall x y, Q x -> f x = Ok y -> R x y) ->
  Forall Q l -> mapM f l = Ok l' -> Forall2 R l l'.
Proof.
  intros HR Hl. revert l'. induction Hl as [|x l Hx _ IH]; intros l'; simpl.
  - intros [= <-]. constructor.
  - intros (y & Hy & (ys & Hys & [= <-])%bind_Ok)%bind_Ok. constructor; auto.
Qed.

Lemma mapM_relative_str root (l l' : list string) :
  Forall indexed_path l ->
  mapM (relative_str root) l = Ok l' ->
  Forall2 (fun f out => PurePath.str (PurePath.joinpath root out) = f) l l'.
Proof.
  clear cwd fnmatchcase.
  apply (mapM_Forall2 indexed_path _ _ _ _ (relative_str_round_trip root)).
Qed.

Lemma output_lists_indexed_paths fs a r :
  analyze cwd fnmatchcase fs a = Ok r ->
  Forall indexed_path (true_orphans r) /\ Forall indexed_path (likely_entry_points r).
Proof.
  intros Hr. pose proof (analyze_files_indexed _ _ _ _ _ Hr) as Hall.
  rewrite Forall_forall in Hall.
  split; apply Forall_forall; intros f Hf; apply Hall;
    apply (output_lists_indexed cwd fnmatchcase fs a r f Hr); auto.
Qed.

(** X9: the paths a run reports are relative to the root: each one, joined to
    the root, is the indexed file it was computed from, and the two output
    lists follow the two lists of files position by position. *)
Theorem reported_paths_lead_back_to_files fs a r :
  analyze cwd fnmatchcase fs a = Ok r ->
  Forall2 (fun f out => PurePath.str (PurePath.joinpath (a_root r) out) = f)
    (true_orphans r) (processed_orphans r)
  /\ Forall2 (fun f out => PurePath.str (PurePath.joinpath (a_root r) out) = f)
       (likely_entry_points r) (processed_entry r).
Proof.
  intros Hr.
  destruct (output_lists_indexed_paths fs a r Hr) as [Hto Hle].
  destruct (analyze_inv _ _ _ _ _ Hr) as (idx & _ & _ & _ & _ & _ & _ & _ & Hpo & Hpe).
  split.
  - by apply mapM_relative_str.
  - by apply mapM_relative_str.
Qed.

End Reported.

(** ** The order of the reported lists *)

Lemma keys_zeros_sublist files : PyDict.keys (PyDict.zeros files) `sublist_of` files.
Proof.
  induction files as [|f files IH] using rev_ind; [done|].
  rewrite PyDictFacts.zeros_snoc.
  destruct (decide (f ∈ PyDict.keys (PyDict.zeros files))) as [Hf|Hf].
  - rewrite PyDictFacts.keys_set_in by done. by apply sublist_inserts_r.
  - rewrite PyDictFacts.keys_set_notin by done. by apply sublist_app.
Qed.

Lemma zero_degree_sublist (d : PyDict.t) : zero_degree d `sublist_of` PyDict.keys d.
Proof.
  unfold zero_degree, PyDict.keys. induction d as [|[k v] d IH]; simpl; [done|].
  destruct (Nat.eqb v 0); [by apply sublist_skip | by apply sublist_cons].
Qed.

Section Order.

Variable cwd : string.
Variable fnmatchcase : string -> string -> bool.

(** X10: both lists of a run keep the order in which the walk met the files:
    each is a subsequence of the list of indexed files. *)
Theorem reported_lists_keep_walk_order fs a r :
  analyze cwd fnmatchcase fs a = Ok r ->
  true_orphans r `sublist_of` a_files r
  /\ likely_entry_points r `sublist_of` a_files r.
Proof.
  intros Hr.
  destruct (analyze_inv _ _ _ _ _ Hr) as (idx & _ & _ & _ & _ & Hc & Hto & Hle & _).
  assert (Hzero : zero_degree (in_degree r) `sublist_of` a_files r).
  { etrans; [apply zero_degree_sublist|].
    rewrite (count_in_degree_keys _ _ _ _ _ Hc). apply keys_zeros_sublist. }
  rewrite Hto, Hle. split; (etrans; [apply sublist_filter|]); done.
Qed.

End Order.

(** ** Each path is reported once *)

Lemma Forall2_fmap_eq {A B : Type} (g : B -> A) (l : list A) (l' : list B) :
  Forall2 (fun x y => g y = x) l l' -> g <$> l' = l.
Proof. induction 1 as [|x y l l' Hxy _ IH]; [done|]. by rewrite fmap_cons, Hxy, IH. Qed.

Section Distinct.

Variable cwd : string.
Variable fnmatchcase : string -> string -> bool.

(** X11: no path appears twice in the output of a run, neither within one list
    nor across the two lists. *)
Theorem reported_paths_are_distinct fs a r :
  analyze cwd fnmatchcase fs a = Ok r ->
  NoDup (processed_orphans r ++ processed_entry r).
Proof.
  intros Hr.
  destruct (output_lists_indexed_paths cwd fnmatchcase fs a r Hr) as [Hio Hie].
  destruct (analyze_inv _ _ _ _ _ Hr) as (idx0 & _ & _ & _ & _ & _ & _ & _ & Hpo & Hpe).
  pose proof (mapM_relative_str _ _ _ Hio Hpo) as Ho.
  pose proof (mapM_relative_str _ _ _ Hie Hpe) as He.
  apply Forall2_fmap_eq in Ho, He.
  apply (NoDup_fmap_1 (fun out => PurePath.str (PurePath.joinpath (a_root r) out))).
  rewrite fmap_app, Ho, He.
  pose proof (in_degree_NoDup _ _ _ _ _ Hr) as Hnd.
  apply PyDictFacts.NoDup_zero_degree in Hnd.
  destruct (analyze_inv _ _ _ _ _ Hr) as (idx & _ & _ & _ & _ & _ & Hto & Hle & _).
  rewrite Hto, Hle. apply NoDup_app. split; [by apply NoDup_filter|].
  split; [|by apply NoDup_filter].
  intros f [Hf _]%list_elem_of_filter [Hf' _]%list_elem_of_filter. done.
Qed.

End Distinct.

(** ** Extraction from Python text *)

Lemma length_set_add x l : length (set_add x l) <= S (length l).
Proof.
  unfold set_add. case_bool_decide; [lia|]. rewrite length_app. simpl. lia.
Qed.

(** X18: the pattern for Python is tried once per line, at the start of the
    line, so a line gives at most one reference: [import a, b] gives [a]
    alone. *)
Theorem python_line_gives_at_most_one_reference content :
  length (scan_py content) <= length (splitlines content).
Proof.
  unfold scan_py.
  assert (H : forall lines acc,
            length (fold_left
                      (fun imports line =>
                         match Re.match_ false REGEX_PY_IMPORT line with
                         | Some m => set_add (group_1_or_2 (Re.groups m)) imports
                         | None => imports
                         end) lines acc)
            <= length acc + length lines).
  { induction lines as [|line lines IH]; intros acc; simpl; [lia|].
    etrans; [apply IH|]. destruct (Re.match_ _ _ _); [|lia].
    pose proof (length_set_add (group_1_or_2 (Re.groups m)) acc). lia. }
  apply (H (splitlines content) []).
Qed.

(** ** Ignore patterns *)

Section Ignoring.

Variable cwd : string.
Variable fnmatchcase : string -> string -> bool.

(** An absolute pattern never matches a relative path. *)
Lemma is_ignored_drops_absolute p pats :
  PurePath.is_abs p = false ->
  is_ignored fnmatchcase p pats
  = is_ignored fnmatchcase p (filter (fun pattern => startswith pattern "/" = false) pats).
Proof.
  clear cwd. intros Hp. induction pats as [|pattern pats IH]; [done|].
  rewrite filter_cons. destruct (decide _) as [Hrel|Habs]; simpl.
  - case_bool_decide; [done|]. by rewrite IH.
  - apply not_false_is_true in Habs.
    rewrite bool_decide_eq_false_2 by (by intros ->).
    unfold PurePath.match_, PurePath.Path. cbn [PurePath.is_abs PurePath.parts].
    rewrite Habs, Hp. cbn [negb andb mbind result_bind]. exact IH.
Qed.

Lemma index_file_drops_absolute root pats dirpath idx f :
  index_file fnmatchcase root pats dirpath idx f
  = index_file fnmatchcase root
      (filter (fun pattern => startswith pattern "/" = false) pats) dirpath idx f.
Proof.
  clear cwd. unfold index_file. destruct (str_in _ EXTENSIONS); [|done].
  destruct (PurePath.relative_to _ root) as [rel|] eqn:Hrel; [|done].
  cbn [mbind result_bind]. rewrite <- is_ignored_drops_absolute; [done|].
  unfold PurePath.relative_to in Hrel. case_bool_decide; [|done].
  destruct (PurePath.strip_prefix _ _); [|done]. by injection Hrel as <-.
Qed.

Lemma index_files_drops_absolute fs root pats :
  index_files fnmatchcase fs root pats
  = index_files fnmatchcase fs root
      (filter (fun pattern => startswith pattern "/" = false) pats).
Proof.
  clear cwd. unfold index_files. apply foldM_ext. intros idx [dirpath names] _.
  unfold index_dir. apply foldM_ext. intros idx' f _. apply index_file_drops_absolute.
Qed.

(** X12: the patterns are matched against paths relative to the root, so an
    ignore pattern that starts with a slash has no effect: a run gives the
    same result as the run without the absolute patterns. *)
Theorem absolute_ignore_patterns_have_no_effect fs a a' :
  directory a' = directory a ->
  format_ a' = format_ a ->
  ignore_patterns a'
  = filter (fun pattern => startswith pattern "/" = false) (ignore_patterns a) ->
  main cwd fnmatchcase fs a' = main cwd fnmatchcase fs a.
Proof.
  intros Hdir Hfmt Hpats. unfold main, analyze. rewrite Hdir, Hfmt, Hpats.
  destruct (PurePath.resolve _ _) as [root|]; [|done]. cbn [mbind result_bind].
  by rewrite <- index_files_drops_absolute.
Qed.

Lemma match_file_name abs ds nm pattern :
  Is_true (PurePath.is_part pattern) ->
  PurePath.match_ fnmatchcase (PurePath.Path_ abs (ds ++ [nm])) pattern
  = Ok (fnmatchcase nm pattern).
Proof.
  clear cwd. intros Hpat. unfold PurePath.match_, PurePath.Path.
  rewrite WalkFacts.startswith_part, WalkFacts.parse_parts_part by done.
  cbn [PurePath.is_abs PurePath.parts negb andb].
  rewrite bool_decide_eq_false_2 by done. rewrite length_app. cbn [length].
  replace (Nat.ltb (length ds + 1) 1) with false
    by (symmetry; apply Nat.ltb_ge; lia).
  rewrite reverse_app. simpl. destruct (reverse ds); simpl; by rewrite andb_true_r.
Qed.

(** X13: a pattern without a slash is compared with the file name alone, so
    with such patterns whether a file is ignored depends on its name only,
    not on the directory it is in. *)
Theorem plain_patterns_test_the_file_name abs ds nm pats :
  Forall (fun pattern => Is_true (PurePath.is_part pattern)) pats ->
  is_ignored fnmatchcase (PurePath.Path_ abs (ds ++ [nm])) pats
  = Ok (existsb (fnmatchcase nm) pats).
Proof.
  clear cwd. induction 1 as [|pattern pats Hpat _ IH]; [done|]. simpl.
  rewrite bool_decide_eq_false_2
    by (by apply PathFacts.is_part_spec in Hpat as [? _]).
  rewrite match_file_name by done. cbn [mbind result_bind].
  destruct (fnmatchcase nm pattern); [done | exact IH].
Qed.

End Ignoring.

(** ** Files that are indexed and never scanned *)

Section Unscanned.

Variable cwd : string.
Variable fnmatchcase : string -> string -> bool.

Lemma scan_imports_go fs p : lower (PurePath.suffix p) = ".go" -> scan_imports fs p = [].
Proof. unfold scan_imports. intros ->. by destruct (Fs.read fs p). Qed.

Lemma sum_list_zero (l : list nat) : Forall (fun n => n = 0) l -> sum_list l = 0.
Proof. induction 1 as [|n l -> _ IH]; simpl; [done | exact IH]. Qed.

Lemma in_degree_inbound fs a r d :
  analyze cwd fnmatchcase fs a = Ok r ->
  d ∈ a_files r ->
  PyDict.get d (in_degree r) = Some (inbound cwd fs (a_file_map r) (a_files r) d).
Proof.
  intros Hr Hd.
  pose proof (analyze_files_indexed _ _ _ _ _ Hr) as Hall.
  rewrite Forall_forall in Hall. destruct (Hall d Hd) as (p & -> & [Habs _] & _).
  destruct (analyze_inv _ _ _ _ _ Hr) as (idx & _ & _ & _ & _ & Hc & _).
  unfold count_in_degree in Hc.
  rewrite (count_files_get cwd fs _ (PurePath.str p) _ _ _ Hc).
  - by rewrite PyDictFacts.get_zeros.
  - by apply PyDictFacts.zeros_spec.
  - by apply PathFacts.str_nonempty.
Qed.

(** X14: Go files are indexed but their text is never searched for references:
    an indexed file whose only possible consumers are Go files is always
    reported, as an orphan or as an entry point. *)
Theorem file_used_by_go_files_only_is_reported fs a r d :
  analyze cwd fnmatchcase fs a = Ok r ->
  d ∈ a_files r ->
  (forall c, c ∈ a_files r -> c ≠ d -> lower (PurePath.suffix (PurePath.Path c)) = ".go") ->
  d ∈ true_orphans r \/ d ∈ likely_entry_points r.
Proof.
  intros Hr Hd Hgo.
  assert (Hzero : PyDict.get d (in_degree r) = Some 0).
  { rewrite (in_degree_inbound fs a r d Hr Hd). f_equal. unfold inbound.
    apply sum_list_zero, Forall_fmap, Forall_forall. intros c Hc. simpl.
    case_bool_decide as Hcd; [done|]. unfold references.
    by rewrite (scan_imports_go fs _ (Hgo c Hc Hcd)). }
  apply (PyDictFacts.elem_of_zero_degree d _ (in_degree_NoDup _ _ _ _ _ Hr)) in Hzero.
  destruct (analyze_inv _ _ _ _ _ Hr) as (idx & _ & _ & _ & _ & _ & Hto & Hle & _).
  rewrite Hto, Hle, !list_elem_of_filter.
  destruct (decide (d ∈ get_entry_points (a_files r))); [right | left]; done.
Qed.

End Unscanned.

(** ** The text report *)

(** X15: the text report sorts both lists before printing, so it does not depend
    on the order in which the walk met the files. *)
Theorem text_report_ignores_the_order orphans orphans' entry entry' :
  orphans ≡ₚ orphans' -> entry ≡ₚ entry' ->
  render_text orphans entry = render_text orphans' entry'.
Proof.
  intros Ho He.
  assert (Hsort : forall l l', l ≡ₚ l' -> sorted l = sorted l').
  { intros l l' Hl. apply (Sorted_unique String.le); try apply sorted_is_sorted.
    unfold sorted. by rewrite !merge_sort_Permutation. }
  unfold render_text. rewrite (Permutation_length Ho), (Hsort _ _ Ho), (Hsort _ _ He).
  assert (Hnil : forall l l' : list string, l ≡ₚ l' -> l = [] <-> l' = []).
  { intros l l' Hl. split; intros ->.
    - by apply Permutation_nil_l in Hl.
    - by apply Permutation_nil_r in Hl. }
  destruct orphans as [|o os], orphans' as [|o' os'];
    try (by apply Hnil in Ho as [Ho1 Ho2]; (discriminate Ho1 || discriminate Ho2 || done));
  destruct entry as [|e es], entry' as [|e' es'];
    try (by apply Hnil in He as [He1 He2]; (discriminate He1 || discriminate He2 || done));
  reflexivity.
Qed.

(** ** The whitelist and the case of letters *)

Module CaseFacts.
Import Re.

(** [re.IGNORECASE] sees a letter and its lower case alike. *)
Lemma lower_char_ascii_lower a : lower_char (ascii_lower_char a) = lower_char a.
Proof. destruct a as [[] [] [] [] [] [] [] []]; reflexivity. Qed.

Lemma ascii_lower_char_LF a : ascii_lower_char a = LF <-> a = LF.
Proof.
  split; [|by intros ->].
  destruct a as [[] [] [] [] [] [] [] []]; vm_compute; congruence.
Qed.

Lemma ascii_lower_empty s : ascii_lower s = EmptyString <-> s = EmptyString.
Proof. by destruct s. Qed.

Lemma ascii_lower_line_break s :
  ascii_lower s = String LF EmptyString <-> s = String LF EmptyString.
Proof.
  destruct s as [|a s]; simpl; [done|]. split.
  - intros [= Ha Hs]. apply (proj1 (ascii_lower_char_LF a)) in Ha.
    apply (proj1 (ascii_lower_empty s)) in Hs. by subst.
  - by intros [= -> ->].
Qed.

Lemma is_Some_match {A : Type} (o1 o2 o1' o2' : option A) :
  (is_Some o1 <-> is_Some o1') -> (is_Some o2 <-> is_Some o2') ->
  is_Some (match o1 with Some m => Some m | None => o2 end)
  <-> is_Some (match o1' with Some m => Some m | None => o2' end).
Proof.
  intros H1 H2. destruct o1 as [x|], o1' as [y|].
  - split; intros _; by eexists.
  - exfalso. apply (is_Some_None (A:=A)), (proj1 H1). by eexists.
  - exfalso. apply (is_Some_None (A:=A)), (proj2 H1). by eexists.
  - exact H2.
Qed.

(** Matching without regard to case sees a subject and the subject with its
    ASCII letters in lower case alike, for patterns made of literal
    characters, anchors, groups, sequences and alternatives. *)
Lemma run_ascii_lower r :
  literal_pattern r = true ->
  forall st st' k k',
    at_start st' = at_start st ->
    rest st' = ascii_lower (rest st) ->
    (forall s s', at_start s' = at_start s -> rest s' = ascii_lower (rest s) ->
       is_Some (k s) <-> is_Some (k' s')) ->
    is_Some (run true r st k) <-> is_Some (run true r st' k').
Proof.
  induction r as [| | |c|p|r1 IH1 r2 IH2|r1 IH1 r2 IH2|r IH|n r IH];
    intros Hlit st st' k k' Hs Hr Hk; cbn [literal_pattern] in Hlit; try discriminate;
    cbn [run].
  - by apply Hk.
  - rewrite Hs. destruct (at_start st) eqn:E; [|done]. apply Hk; congruence.
  - rewrite Hr.
    rewrite (bool_decide_ext _ _ (ascii_lower_empty (rest st))).
    rewrite (bool_decide_ext _ _ (ascii_lower_line_break (rest st))).
    destruct (_ || _); [by apply Hk | done].
  - unfold step. rewrite Hr. destruct (rest st) as [|a s]; [done|]. cbn [ascii_lower].
    unfold chr_eq. rewrite lower_char_ascii_lower.
    destruct (bool_decide _); [|done]. by apply Hk.
  - apply andb_prop in Hlit as [H1 H2]. apply IH1; [done..|].
    intros s s' Hs' Hr'. by apply IH2.
  - apply andb_prop in Hlit as [H1 H2]. apply is_Some_match; [by apply IH1 | by apply IH2].
  - apply IH; [done..|]. intros s s' Hs' Hr'. by apply Hk.
Qed.

Lemma search_from_ascii_lower r start s :
  literal_pattern r = true ->
  is_Some (search_from true r start (ascii_lower s)) <-> is_Some (search_from true r start s).
Proof.
  intros Hlit. revert start. induction s as [|c s IH]; intros start; [done|].
  cbn [ascii_lower search_from]. apply is_Some_match; [|apply IH].
  symmetry. by apply run_ascii_lower.
Qed.

End CaseFacts.

(** X16: the whitelist is applied without regard to the case of the letters
    [A] to [Z]: two names that differ in the case of such letters only are
    whitelisted alike. *)
Theorem whitelist_ignores_ascii_case nm nm' :
  ascii_lower nm' = ascii_lower nm ->
  matches_entry_pattern nm' = matches_entry_pattern nm.
Proof.
  assert (H : forall s, matches_entry_pattern (ascii_lower s) = matches_entry_pattern s).
  { intros s. unfold matches_entry_pattern.
    assert (Hlit : forallb literal_pattern ENTRY_POINT_PATTERNS = true) by reflexivity.
    induction ENTRY_POINT_PATTERNS as [|pat pats IH]; [done|].
    cbn [forallb] in Hlit. apply andb_prop in Hlit as [Hpat Hpats].
    cbn [existsb]. rewrite (IH Hpats). f_equal.
    apply bool_decide_ext. by apply CaseFacts.search_from_ascii_lower. }
  intros Heq. by rewrite <- (H nm'), Heq, H.
Qed.

(** ** Relative references that are one hidden name *)

Module HiddenFacts.
Import PurePath.

Lemma normalize_plain stack ps :
  Forall (fun x => x ≠ "..") ps -> normalize stack ps = stack ++ ps.
Proof.
  intros Hps. revert stack. induction Hps as [|x ps Hx _ IH]; intros stack; simpl.
  - by rewrite app_nil_r.
  - rewrite bool_decide_eq_false_2 by done. rewrite IH. by rewrite <- app_assoc.
Qed.

Lemma normalize_no_parent stack ps :
  Forall (fun x => x ≠ "..") stack -> Forall (fun x => x ≠ "..") (normalize stack ps).
Proof.
  revert stack. induction ps as [|x ps IH]; intros stack Hs; simpl; [done|].
  case_bool_decide as Hx; apply IH.
  - by apply PathFacts.Forall_removelast.
  - apply Forall_app. split; [done | by constructor].
Qed.

Lemma resolve_no_parent c p t :
  resolve c p = Ok t -> Forall (fun x => x ≠ "..") (parts t).
Proof.
  unfold resolve. case_bool_decide; [done|]. intros [= <-]. simpl.
  apply normalize_no_parent. constructor.
Qed.

Lemma resolve_plain c ps t :
  Forall (fun x => x ≠ "..") ps ->
  resolve c (Path_ true ps) = Ok t -> t = Path_ true ps.
Proof.
  intros Hps. unfold resolve. cbn [is_abs parts]. case_bool_decide; [done|].
  intros [= <-]. by rewrite normalize_plain.
Qed.

Lemma kept_not_hidden d : keep_dir d = true -> startswith d "." = false.
Proof. by intros [_ ?]%keep_dir_spec. Qed.

Lemma hidden_not_parent d : startswith d "." = false -> d ≠ "..".
Proof. by intros H ->. Qed.

(** The string of an absolute path gives its parts back. *)
Lemma str_parts_inj ps qs :
  Forall (fun x => "/"%char ∉ list_ascii_of_string x) ps ->
  Forall (fun x => "/"%char ∉ list_ascii_of_string x) qs ->
  ps ≠ [] -> qs ≠ [] ->
  str (Path_ true ps) = str (Path_ true qs) -> ps = qs.
Proof.
  intros Hps Hqs Hp Hq. unfold str. cbn [is_abs parts].
  change (String "/" (join "/" ps) = String "/" (join "/" qs) -> ps = qs).
  intros [= H]. rewrite <- (PathFacts.split_join ps), <- (PathFacts.split_join qs) by done.
  by rewrite H.
Qed.

Lemma no_sep_part x : Is_true (is_part x) -> "/"%char ∉ list_ascii_of_string x.
Proof. by intros (_ & _ & ?)%PathFacts.is_part_spec. Qed.

Lemma no_sep_app s1 s2 :
  "/"%char ∉ list_ascii_of_string s1 -> "/"%char ∉ list_ascii_of_string s2 ->
  "/"%char ∉ list_ascii_of_string (s1 +:+ s2).
Proof.
  induction s1 as [|c s1 IH]; [done|]. simpl.
  rewrite !not_elem_of_cons. intros [Hc H1] H2. split; [done | by apply IH].
Qed.

Lemma no_sep_stake n s :
  "/"%char ∉ list_ascii_of_string s -> "/"%char ∉ list_ascii_of_string (stake n s).
Proof.
  revert s. induction n as [|n IH]; intros [|c s]; simpl; try (intros _; apply not_elem_of_nil).
  rewrite !not_elem_of_cons. intros [Hc Hs]. split; [done | by apply IH].
Qed.

Lemma no_sep_name_stem nm :
  "/"%char ∉ list_ascii_of_string nm -> "/"%char ∉ list_ascii_of_string (name_stem nm).
Proof.
  intros H. unfold name_stem. destruct (suffix_index nm); [by apply no_sep_stake | done].
Qed.

Lemma no_sep_extension ext : ext ∈ EXTENSIONS -> "/"%char ∉ list_ascii_of_string ext.
Proof.
  intros H. assert (Hc : contains "/" ext = false).
  { apply list_elem_of_In in H. simpl in H.
    repeat (destruct H as [<-|H]; [reflexivity|]). done. }
  unfold contains in Hc. by apply bool_decide_eq_false in Hc.
Qed.

Lemma index_name_part ext : ext ∈ EXTENSIONS -> Is_true (is_part ("index" +:+ ext)).
Proof.
  intros H. apply list_elem_of_In in H. simpl in H.
  repeat (destruct H as [<-|H]; [by vm_compute|]). done.
Qed.

Lemma startswith_name_stem nm c :
  startswith nm c = true -> startswith (name_stem nm) c = true.
Proof.
  unfold name_stem, suffix_index. destruct (rfind "." nm) as [i|]; [|done].
  destruct i as [|i]; [done|]. destruct (_ && _); [|done].
  by destruct nm.
Qed.

Lemma startswith_app s1 s2 c : startswith s1 c = true -> startswith (s1 +:+ s2) c = true.
Proof. by destruct s1. Qed.

End HiddenFacts.

Section HiddenName.

Variable cwd : string.
Variable fnmatchcase : string -> string -> bool.

Lemma head_filter_elem {A : Type} (P : A -> Prop) `{forall x, Decision (P x)}
    (l : list A) (x : A) :
  head (filter P l) = Some x -> x ∈ l.
Proof.
  clear cwd fnmatchcase. intros Hx. apply head_Some_elem_of in Hx.
  by apply list_elem_of_filter in Hx as [_ ?].
Qed.

(** A relative reference whose target has a name resolves to one of the
    candidates of the target. *)
Lemma resolve_import_relative_elem base imp (m : gmap string (list string)) target c :
  startswith imp "." = true ->
  PurePath.resolve (PurePath.Path cwd)
    (PurePath.joinpath (PurePath.parent base) imp) = Ok target ->
  PurePath.name target ≠ EmptyString ->
  resolve_import cwd base imp m = Ok (Some c) ->
  c ∈ relative_candidates target.
Proof.
  clear fnmatchcase. intros Hdot Hres Hname. unfold resolve_import, resolve_import_in.
  rewrite Hdot, Hres. cbn [negb]. unfold relative_candidates, relative_candidates_in.
  destruct (str_in _ _); [intros [= <-]; left|].
  rewrite (try_suffixes_spec target _ EXTENSIONS Hname), try_index_files_spec.
  unfold mbind, result_bind. right. apply elem_of_app.
  destruct (head _) as [c'|] eqn:E.
  - injection H as ->. left. by eapply head_filter_elem.
  - injection H as H. right. by eapply head_filter_elem.
Qed.

(** X17: a relative reference that is one name starting with a dot, as the
    pattern for Python yields for [from .mod import x], is looked up as a
    path whose last component is that very name.  In a tree with proper
    names it resolves, if at all, to a file whose own name starts with a
    dot, so never to [mod.py]. *)
Theorem hidden_name_reference_finds_hidden_files_only fs a r f imp c :
  Fs.well_named fs = true ->
  analyze cwd fnmatchcase fs a = Ok r ->
  f ∈ a_files r ->
  Is_true (PurePath.is_part imp) ->
  startswith imp "." = true ->
  imp ≠ ".." ->
  resolve_import cwd (PurePath.Path f) imp (a_file_map r) = Ok (Some c) ->
  startswith (PurePath.name (PurePath.Path c)) "." = true.
Proof.
  intros Hfs Hr Hf Himp Hdot Hpar Hres.
  destruct (resolve_import_candidate cwd _ _ _ _ Hres) as [k Hk].
  pose proof (file_map_candidates cwd fnmatchcase fs a r k c Hr Hk) as Hc.
  destruct (analyze_inv _ _ _ _ _ Hr) as (idx & Hroot & Hidx & Hfiles & _).
  pose proof (HiddenFacts.resolve_no_parent _ _ _ Hroot) as Hplain.
  destruct (PathFacts.resolve_well_formed _ _ _ Hroot) as [Habs Hparts].
  pose proof (index_files_under fnmatchcase fs _ _ idx Hfs Habs Hidx) as Hall.
  rewrite Forall_forall in Hall. rewrite Hfiles in Hf, Hc.
  destruct (Hall f Hf) as (dsf & nmf & -> & Hdsf & Hnmf & _).
  destruct (Hall c Hc) as (dsc & nmc & -> & Hdsc & Hnmc & _).
  set (R := PurePath.parts (a_root r)) in *.
  assert (Hwf : forall ds nm,
            Forall (fun d => keep_dir d = true /\ Is_true (PurePath.is_part d)) ds ->
            Is_true (PurePath.is_part nm) ->
            PurePath.well_formed (PurePath.Path_ true (R ++ ds ++ [nm]))).
  { intros ds nm Hds Hnm. split; [done|]. cbn [PurePath.parts].
    apply Forall_app. split; [done|]. apply Forall_app. split; [|by constructor].
    eapply Forall_impl; [exact Hds|]. by intros d [_ ?]. }
  rewrite (PathFacts.Path_str _ (Hwf dsc nmc Hdsc Hnmc)).
  rewrite (app_assoc R dsc), WalkFacts.name_snoc.
  rewrite (PathFacts.Path_str _ (Hwf dsf nmf Hdsf Hnmf)) in Hres.
  assert (Hparent : PurePath.joinpath
                      (PurePath.parent (PurePath.Path_ true (R ++ dsf ++ [nmf]))) imp
                    = PurePath.Path_ true ((R ++ dsf) ++ [imp])).
  { rewrite WalkFacts.joinpath_part by done. unfold PurePath.parent.
    cbn [PurePath.is_abs PurePath.parts]. by rewrite (app_assoc R dsf), removelast_last. }
  assert (Hdirs : forall ds,
            Forall (fun d => keep_dir d = true /\ Is_true (PurePath.is_part d)) ds ->
            Forall (fun x => x ≠ "..") ds).
  { intros ds Hds. eapply Forall_impl; [exact Hds|]. intros d [Hk' _].
    by apply HiddenFacts.hidden_not_parent, (HiddenFacts.kept_not_hidden d). }
  destruct (PurePath.resolve (PurePath.Path cwd) (PurePath.Path_ true ((R ++ dsf) ++ [imp])))
    as [target|[]] eqn:Htarget.
  2: { unfold resolve_import, resolve_import_in in Hres.
       rewrite Hdot, Hparent, Htarget in Hres. done. }
  pose proof Htarget as Ht. apply HiddenFacts.resolve_plain in Ht.
  2: { apply Forall_app. split; [|by constructor].
       apply Forall_app. split; [done | by apply Hdirs]. }
  subst target. rewrite <- Hparent in Htarget at 1.
  apply (resolve_import_relative_elem _ _ _ _ _ Hdot Htarget) in Hres.
  2: { rewrite WalkFacts.name_snoc. by apply PathFacts.is_part_spec in Himp as [? _]. }
  assert (Hsep : forall ds,
            Forall (fun d => keep_dir d = true /\ Is_true (PurePath.is_part d)) ds ->
            Forall (fun x => "/"%char ∉ list_ascii_of_string x) (R ++ ds)).
  { intros ds Hds. apply Forall_app. split.
    - eapply Forall_impl; [exact Hparts|]. intros x. apply HiddenFacts.no_sep_part.
    - eapply Forall_impl; [exact Hds|]. intros x [_ ?]. by apply HiddenFacts.no_sep_part. }
  assert (Hlast : forall nm,
            "/"%char ∉ list_ascii_of_string nm ->
            PurePath.str (PurePath.Path_ true ((R ++ dsc) ++ [nmc]))
            = PurePath.str (PurePath.Path_ true ((R ++ dsf) ++ [nm])) ->
            nmc = nm).
  { intros nm Hnm Heq. apply HiddenFacts.str_parts_inj in Heq.
    - by apply app_inj_tail in Heq as [_ ?].
    - apply Forall_app. split; [by apply Hsep|]. constructor; [|done].
      by apply HiddenFacts.no_sep_part.
    - apply Forall_app. split; [by apply Hsep | by constructor].
    - by destruct (R ++ dsc).
    - by destruct (R ++ dsf). }
  rewrite (app_assoc R dsc) in Hres.
  unfold relative_candidates, relative_candidates_in in Hres.
  apply elem_of_cons in Hres as [Hres | Hres]; [|apply elem_of_app in Hres as [Hres | Hres]].
  - apply Hlast in Hres as ->; [done | by apply HiddenFacts.no_sep_part].
  - apply list_elem_of_fmap in Hres as (ext & Hres & Hext).
    unfold replace_suffix in Hres. cbn [PurePath.is_abs PurePath.parts] in Hres.
    rewrite WalkFacts.name_snoc, removelast_last in Hres.
    apply Hlast in Hres as ->.
    + by apply HiddenFacts.startswith_app, HiddenFacts.startswith_name_stem.
    + apply HiddenFacts.no_sep_app.
      * by apply HiddenFacts.no_sep_name_stem, HiddenFacts.no_sep_part.
      * by apply HiddenFacts.no_sep_extension.
  - apply list_elem_of_fmap in Hres as (ext & Hres & Hext). exfalso.
    rewrite WalkFacts.joinpath_part in Hres by (by apply HiddenFacts.index_name_part).
    cbn [PurePath.is_abs PurePath.parts] in Hres.
    apply HiddenFacts.str_parts_inj in Hres.
    + apply app_inj_tail in Hres as [Hres _].
      rewrite <- (app_assoc R dsf) in Hres. apply app_inv_head in Hres.
      rewrite Forall_forall in Hdsc. destruct (Hdsc imp) as [Hkeep _].
      { rewrite Hres. apply elem_of_app. right. left. }
      apply (HiddenFacts.kept_not_hidden imp) in Hkeep. congruence.
    + apply Forall_app. split; [by apply Hsep|]. constructor; [|done].
      by apply HiddenFacts.no_sep_part.
    + apply Forall_app. split.
      * apply Forall_app. split; [by apply Hsep|]. constructor; [|done].
        by apply HiddenFacts.no_sep_part.
      * constructor; [|done]. by apply HiddenFacts.no_sep_part, HiddenFacts.index_name_part.
    + by destruct (R ++ dsc).
    + by destruct ((R ++ dsf) ++ [imp]).
Qed.

End HiddenName.

(** ** The further properties at concrete runs *)

Lemma file_map_holds_the_indexed_files_witness :
  exists r,
    analyze "/" no_fnmatch scenario_A (Args "/p" json "") = Ok r
    /\ NoDup (map_get (a_file_map r) FULL_PATHS).
Proof.
  eexists. split; [vm_compute; reflexivity|].
  apply (file_map_holds_the_indexed_files "/" no_fnmatch scenario_A (Args "/p" json "")).
  vm_compute; reflexivity.
Defined.

Lemma resolved_reference_is_indexed_witness :
  exists r,
    analyze "/" no_fnmatch scenario_A (Args "/p" json "") = Ok r
    /\ resolve_import "/" (PurePath.Path "/p/src/index.js") "./lib/a.js" (a_file_map r)
       = Ok (Some "/p/src/lib/a.js")
    /\ "/p/src/lib/a.js" ∈ a_files r.
Proof.
  eexists. split; [vm_compute; reflexivity|]. split; [vm_compute; reflexivity|].
  apply (resolved_reference_is_indexed "/" no_fnmatch scenario_A (Args "/p" json "") _
           (PurePath.Path "/p/src/index.js") "./lib/a.js" "/p/src/lib/a.js");
    vm_compute; reflexivity.
Defined.

Lemma js_reference_found_at_text_start_only_witness :
  contains ";" two_statements = false
  /\ contains "}" two_statements = false
  /\ scan_js two_statements
     = match Re.match_ false REGEX_JS_IMPORT two_statements with
       | Some m => [default EmptyString (Re.group 1 (Re.groups m))]
       | None => []
       end.
Proof.
  split; [reflexivity|]. split; [reflexivity|].
  apply (js_reference_found_at_text_start_only two_statements); reflexivity.
Defined.

Lemma run_completes_unless_reference_targets_root_witness :
  exists idx,
    index_files no_fnmatch scenario_A (PurePath.Path "/p")
      (ignore_patterns (Args "/p" json "")) = Ok idx
    /\ ((exists out, main "/" no_fnmatch scenario_A (Args "/p" json "") = Ok out)
        <-> (forall f imp, f ∈ all_files idx ->
               imp ∈ scan_imports scenario_A (PurePath.Path f) ->
               ~ targets_file_system_root "/" f imp)).
Proof.
  eexists. split; [vm_compute; reflexivity|].
  apply (run_completes_unless_reference_targets_root "/" no_fnmatch scenario_A
           (Args "/p" json "") (PurePath.Path "/p")); vm_compute; reflexivity.
Defined.

Lemma indexing_completes_witness :
  Fs.well_named scenario_A = true
  /\ exists idx, index_files no_fnmatch scenario_A (PurePath.Path "/p") ["*.tmp"] = Ok idx.
Proof.
  split; [reflexivity|].
  apply (indexing_completes no_fnmatch scenario_A (PurePath.Path "/p") ["*.tmp"]);
    [reflexivity|].
  constructor; [reflexivity | constructor].
Defined.

Lemma unacceptable_pattern_raises_witness :
  acceptable_pattern "." = false
  /\ is_ignored no_fnmatch (PurePath.Path "src/a.js") ["*.tmp"; "."; "*.js"]
     = Raise ValueError.
Proof.
  split; [reflexivity|].
  apply (unacceptable_pattern_raises no_fnmatch (PurePath.Path "src/a.js")
           ["*.tmp"] "." ["*.js"]); reflexivity.
Defined.

Lemma indexed_files_avoid_skipped_directories_witness :
  exists r,
    analyze "/" no_fnmatch scenario_A (Args "/p" json "") = Ok r
    /\ exists ds nm,
         "/p/src/lib/a.js"
         = PurePath.str (PurePath.Path_ true (PurePath.parts (a_root r) ++ ds ++ [nm]))
         /\ Forall (fun d => (d ∉ SKIP_DIRS) /\ startswith d "." = false) ds
         /\ lower (PurePath.name_suffix nm) ∈ EXTENSIONS.
Proof.
  eexists. split; [vm_compute; reflexivity|].
  apply (indexed_files_avoid_skipped_directories "/" no_fnmatch scenario_A
           (Args "/p" json "")).
  - reflexivity.
  - vm_compute; reflexivity.
  - apply list_elem_of_In. vm_compute. auto.
Defined.

Lemma reported_paths_lead_back_to_files_witness :
  exists r,
    analyze "/" no_fnmatch scenario_A (Args "/p" json "") = Ok r
    /\ Forall2 (fun f out => PurePath.str (PurePath.joinpath (a_root r) out) = f)
         (true_orphans r) (processed_orphans r).
Proof.
  eexists. split; [vm_compute; reflexivity|].
  apply (reported_paths_lead_back_to_files "/" no_fnmatch scenario_A (Args "/p" json "")).
  vm_compute; reflexivity.
Defined.

Lemma absolute_ignore_patterns_have_no_effect_witness :
  ignore_patterns (Args "/p" json "/p/src/*,b.js") = ["/p/src/*"; "b.js"]
  /\ main "/" no_fnmatch scenario_A (Args "/p" json "b.js")
     = main "/" no_fnmatch scenario_A (Args "/p" json "/p/src/*,b.js").
Proof.
  split; [reflexivity|].
  apply (absolute_ignore_patterns_have_no_effect "/" no_fnmatch scenario_A
           (Args "/p" json "/p/src/*,b.js") (Args "/p" json "b.js")); reflexivity.
Defined.

Lemma plain_patterns_test_the_file_name_witness :
  is_ignored no_fnmatch (PurePath.Path_ false (["src"; "lib"] ++ ["a.js"])) ["*.tmp"; "a.*"]
  = Ok (existsb (no_fnmatch "a.js") ["*.tmp"; "a.*"]).
Proof.
  apply (plain_patterns_test_the_file_name no_fnmatch false ["src"; "lib"] "a.js"
           ["*.tmp"; "a.*"]).
  repeat constructor.
Defined.

Lemma file_used_by_go_files_only_is_reported_witness :
  exists r,
    analyze "/" no_fnmatch go_project (Args "/g" json "") = Ok r
    /\ ("/g/util.go" ∈ true_orphans r \/ "/g/util.go" ∈ likely_entry_points r).
Proof.
  eexists. split; [vm_compute; reflexivity|].
  apply (file_used_by_go_files_only_is_reported "/" no_fnmatch go_project
           (Args "/g" json "")).
  - vm_compute; reflexivity.
  - apply list_elem_of_In. vm_compute. auto.
  - intros c Hc Hne. apply list_elem_of_In in Hc. vm_compute in Hc.
    destruct Hc as [<- | [<- | []]]; [reflexivity | done].
Defined.

Lemma text_report_ignores_the_order_witness :
  render_text ["b.py"; "a.py"] ["main.py"] = render_text ["a.py"; "b.py"] ["main.py"].
Proof.
  apply (text_report_ignores_the_order ["b.py"; "a.py"] ["a.py"; "b.py"]
           ["main.py"] ["main.py"]).
  - apply perm_swap.
  - reflexivity.
Defined.

Lemma hidden_name_reference_finds_hidden_files_only_witness :
  exists r,
    analyze "/" no_fnmatch python_package (Args "/proj" json "") = Ok r
    /\ resolve_import "/" (PurePath.Path "/proj/pkg/a.py") ".mod" (a_file_map r)
       = Ok (Some "/proj/pkg/.mod.py")
    /\ startswith (PurePath.name (PurePath.Path "/proj/pkg/.mod.py")) "." = true.
Proof.
  eexists. split; [vm_compute; reflexivity|]. split; [vm_compute; reflexivity|].
  eapply (hidden_name_reference_finds_hidden_files_only "/" no_fnmatch python_package
            (Args "/proj" json "") _ "/proj/pkg/a.py" ".mod" "/proj/pkg/.mod.py").
  - reflexivity.
  - vm_compute; reflexivity.
  - apply list_elem_of_In. vm_compute. auto.
  - vm_compute. exact I.
  - reflexivity.
  - discriminate.
  - vm_compute; reflexivity.
Defined.

Lemma reported_lists_keep_walk_order_witness :
  exists r,
    analyze "/" no_fnmatch scenario_A (Args "/p" json "") = Ok r
    /\ true_orphans r `sublist_of` a_files r.
Proof.
  eexists. split; [vm_compute; reflexivity|].
  apply (reported_lists_keep_walk_order "/" no_fnmatch scenario_A (Args "/p" json "")).
  vm_compute; reflexivity.
Defined.

Lemma reported_paths_are_distinct_witness :
  exists r,
    analyze "/" no_fnmatch scenario_A (Args "/p" json "") = Ok r
    /\ NoDup (processed_orphans r ++ processed_entry r).
Proof.
  eexists. split; [vm_compute; reflexivity|].
  apply (reported_paths_are_distinct "/" no_fnmatch scenario_A (Args "/p" json "")).
  vm_compute; reflexivity.
Defined.

Lemma whitelist_ignores_ascii_case_witness :
  ascii_lower "INDEX.Js" = ascii_lower "index.js"
  /\ matches_entry_pattern "INDEX.Js" = matches_entry_pattern "index.js".
Proof.
  split; [reflexivity|].
  apply (whitelist_ignores_ascii_case "index.js" "INDEX.Js"). reflexivity.
Defined.
